(** * Mouse bindings of xgbutil: registry and drag slot

    A shallow embedding of the mouse-binding part of package [xgbutil]
    (the (event type, window, modifiers, button) registry with its grab
    counters, and the single drag slot), with the properties of its
    operations.

    Conventions of the embedding.
    - Go's [int] is taken at 64 bits, two's complement: every arithmetic
      result on a counter goes through [int_wrap].
    - A Go map is a [gmap]; reading a missing key gives the zero value of
      the element type ([binds_at], [grabs_at]).
    - A Go slice is a list; [nil] and the empty slice are both [[]].
    - An interface or function value that may be [nil] is an [option].
    - Every method takes the session lock for its whole body, so each
      operation is one atomic step on the session state.
    - A handler is foreign code that receives the session: it is a step
      on the session and the rest of the program, and it may panic. *)

From stdpp Require Import gmap list fin_maps.
From Stdlib Require Import ZArith Lia.

Local Open Scope Z_scope.

(** ** Machine integers *)

Module GoInt.

Definition int_bits : Z := 64.
Definition int_modulus : Z := 2 ^ int_bits.
Definition int_half : Z := 2 ^ (int_bits - 1).
Definition max_int : Z := int_half - 1.
Definition min_int : Z := - int_half.

(** The value of an [int] expression whose mathematical value is [z]. *)
Definition int_wrap (z : Z) : Z := (z + int_half) mod int_modulus - int_half.

(** [len(s)] of a slice held as a list. *)
Definition len {A : Type} (s : list A) : Z := Z.of_nat (length s).

End GoInt.
Export GoInt.

(** ** Binding keys *)

(** [type MouseBindKey struct { Evtype int; Win xproto.Window;
    Mod uint16; Button xproto.Button }]. The unsigned fields are naturals;
    no operation computes on them, they are only compared. *)
Record MouseBindKey : Type := mkMouseBindKey {
  Evtype : Z;
  Win : N;
  Mod : N;
  Button : N;
}.

Global Instance MouseBindKey_eq_dec : EqDecision MouseBindKey.
Proof. solve_decision. Defined.

Global Instance MouseBindKey_countable : Countable MouseBindKey.
Proof.
  apply (inj_countable'
           (fun k => (Evtype k, Win k, Mod k, Button k))
           (fun t => match t with (e, w, m, b) => mkMouseBindKey e w m b end)).
  by intros [].
Defined.

(** The test of the two scanning loops: [key.Evtype == evtype && key.Win == win]. *)
Definition key_matches (evtype : Z) (win : N) (key : MouseBindKey) : bool :=
  bool_decide (Evtype key = evtype) && bool_decide (Win key = win).

Section Session.

(** Implementations of the interface [MouseBindCallback] (its non-nil
    values), and the function values of type [MouseDragFun]. *)
Variable Handler : Type.
Variable DragFn : Type.

(** A value of interface type [MouseBindCallback]; [None] is [nil]. *)
Definition MouseBindCallback : Type := option Handler.

(** A value of type [MouseDragFun]; [None] is [nil]. *)
Definition MouseDragFun : Type := option DragFn.

(** Modelled from the spec: the declaration of [struct XUtil] is not
    among the sources. These are the fields the mouse-binding methods
    read and write, at the types the methods use them with: two maps
    keyed by the binding tuple (chains and grab counts) and the drag
    record [{active, stepFn, endFn}]. [mousebindsLck] guards both maps
    and has no state between operations. *)
Record XUtil : Type := mkXUtil {
  mousebinds : gmap MouseBindKey (list MouseBindCallback);
  mousegrabs : gmap MouseBindKey Z;
  mouseDrag : bool;
  mouseDragStep : MouseDragFun;
  mouseDragEnd : MouseDragFun;
}.

(** [xu.mousebinds[key]] as an expression: [nil] when the key is missing. *)
Definition binds_at (xu : XUtil) (key : MouseBindKey) : list MouseBindCallback :=
  default [] (mousebinds xu !! key).

(** [xu.mousegrabs[key]] as an expression: [0] when the key is missing. *)
Definition grabs_at (xu : XUtil) (key : MouseBindKey) : Z :=
  default 0 (mousegrabs xu !! key).

(** ** Registry operations *)

Definition AttachMouseBindCallback (evtype : Z) (win : N) (mods : N)
    (button : N) (fun_ : MouseBindCallback) (xu : XUtil) : XUtil :=
  let key := mkMouseBindKey evtype win mods button in
  (* if _, ok := xu.mousebinds[key]; !ok { xu.mousebinds[key] = make(.., 0) } *)
  let binds1 :=
    match mousebinds xu !! key with
    | Some _ => mousebinds xu
    | None => <[key := []]> (mousebinds xu)
    end in
  (* xu.mousebinds[key] = append(xu.mousebinds[key], fun) *)
  let binds2 := <[key := default [] (binds1 !! key) ++ [fun_]]> binds1 in
  (* xu.mousegrabs[key] += 1 *)
  let grabs2 := <[key := int_wrap (grabs_at xu key + 1)]> (mousegrabs xu) in
  mkXUtil binds2 grabs2 (mouseDrag xu) (mouseDragStep xu) (mouseDragEnd xu).

(** The keys a [range] over [xu.mousebinds] produces. Go leaves the
    order open; the scanning loops below are shown not to depend on it. *)
Definition MouseBindKeys (xu : XUtil) : list MouseBindKey :=
  (map_to_list (mousebinds xu)).*1.

(** [cbs := make([]MouseBindCallback, n)] followed by
    [for i, cb := range src { cbs[i] = cb }]. *)
Definition copy_callbacks (src : list MouseBindCallback) : list MouseBindCallback :=
  foldl (fun cbs ic => <[ic.1 := ic.2]> cbs)
        (replicate (length src) None)
        (imap (fun i cb => (i, cb)) src).

Definition MouseBindCallbacks (xu : XUtil) (key : MouseBindKey)
    : list MouseBindCallback :=
  copy_callbacks (binds_at xu key).

(** The loop of [ConnectedMouseBind] over a given key order: [return
    true] at the first matching key, [return false] after the loop. *)
Fixpoint connected_scan (evtype : Z) (win : N) (keys : list MouseBindKey) : bool :=
  match keys with
  | [] => false
  | key :: rest =>
      if key_matches evtype win key then true
      else connected_scan evtype win rest
  end.

Definition ConnectedMouseBind (evtype : Z) (win : N) (xu : XUtil) : bool :=
  connected_scan evtype win (MouseBindKeys xu).

(** One iteration of the loop of [DetachMouseBindWindow]. *)
Definition detach_step (evtype : Z) (win : N) (xu : XUtil) (key : MouseBindKey)
    : XUtil :=
  if key_matches evtype win key then
    (* xu.mousegrabs[key] -= len(xu.mousebinds[key]) *)
    let grabs1 :=
      <[key := int_wrap (grabs_at xu key - len (binds_at xu key))]> (mousegrabs xu) in
    (* delete(xu.mousebinds, key) *)
    let binds1 := delete key (mousebinds xu) in
    mkXUtil binds1 grabs1 (mouseDrag xu) (mouseDragStep xu) (mouseDragEnd xu)
  else xu.

(** The loop over a given key order. An iteration deletes only the key
    it is at, so the range visits every key of the map as it was when
    the loop started, once. *)
Definition detach_scan (evtype : Z) (win : N) (keys : list MouseBindKey)
    (xu : XUtil) : XUtil :=
  foldl (detach_step evtype win) xu keys.

Definition DetachMouseBindWindow (evtype : Z) (win : N) (xu : XUtil) : XUtil :=
  detach_scan evtype win (MouseBindKeys xu) xu.

Definition MouseBindGrabs (evtype : Z) (win : N) (mods : N) (button : N)
    (xu : XUtil) : Z :=
  let key := mkMouseBindKey evtype win mods button in
  grabs_at xu key.

(** ** Drag slot *)

Definition MouseDrag (xu : XUtil) : bool := mouseDrag xu.

Definition MouseDragSet (dragging : bool) (xu : XUtil) : XUtil :=
  mkXUtil (mousebinds xu) (mousegrabs xu) dragging
          (mouseDragStep xu) (mouseDragEnd xu).

Definition MouseDragStep (xu : XUtil) : MouseDragFun := mouseDragStep xu.

Definition MouseDragStepSet (f : MouseDragFun) (xu : XUtil) : XUtil :=
  mkXUtil (mousebinds xu) (mousegrabs xu) (mouseDrag xu) f (mouseDragEnd xu).

Definition MouseDragEnd (xu : XUtil) : MouseDragFun := mouseDragEnd xu.

Definition MouseDragEndSet (f : MouseDragFun) (xu : XUtil) : XUtil :=
  mkXUtil (mousebinds xu) (mousegrabs xu) (mouseDrag xu) (mouseDragStep xu) f.

(** ** Dispatch *)

(** [Event] is the raw event handed to the handlers. [World] is the
    part of the program state outside the session that a handler can
    reach. [Run h ev] is the method [Run(xu, ev)] of the implementation
    [h]: a step on the session and the world, [None] when it panics. *)
Variable Event : Type.
Variable World : Type.
Variable Run : Handler -> Event -> XUtil * World -> option (XUtil * World).

(** [cb.Run(xu, event)] on an interface value: a [nil] interface panics. *)
Definition call_Run (event : Event) (cb : MouseBindCallback)
    (st : XUtil * World) : option (XUtil * World) :=
  match cb with
  | None => None
  | Some h => Run h event st
  end.

(** [for _, cb := range cbs { cb.Run(xu, event) }]; a panic ends the loop. *)
Fixpoint run_callbacks (event : Event) (cbs : list MouseBindCallback)
    (st : XUtil * World) : option (XUtil * World) :=
  match cbs with
  | [] => Some st
  | cb :: rest =>
      match call_Run event cb st with
      | None => None
      | Some st' => run_callbacks event rest st'
      end
  end.

(** The range expression [xu.MouseBindCallbacks(key)] is evaluated once,
    on the session as it is when the loop starts. *)
Definition RunMouseBindCallbacks (event : Event) (evtype : Z) (win : N)
    (mods : N) (button : N) (st : XUtil * World) : option (XUtil * World) :=
  let key := mkMouseBindKey evtype win mods button in
  run_callbacks event (MouseBindCallbacks st.1 key) st.

(** ** Drag functions *)

(** [type MouseDragFun func(xu *XUtil, rootX, rootY, eventX, eventY int)]:
    the session and four integers in, nothing out. *)
Definition MouseDragFun_type : Type :=
  XUtil * World -> Z -> Z -> Z -> Z -> option (XUtil * World).

Variable drag_call : DragFn -> MouseDragFun_type.

(** The integer parameters of [MouseDragFun], by name. *)
Record MouseDragArgs : Type := mkMouseDragArgs {
  rootX : Z;
  rootY : Z;
  eventX : Z;
  eventY : Z;
}.

Definition call_MouseDragFun (f : DragFn) (st : XUtil * World)
    (a : MouseDragArgs) : option (XUtil * World) :=
  drag_call f st (rootX a) (rootY a) (eventX a) (eventY a).

(** ** Sessions that the operations can produce *)

(** Modelled from the spec: the constructor of the session is not among
    the sources. A session starts with no binding registered, so with
    both maps empty, and with the drag slot idle ([active=false], no
    step or end function). *)
Definition NewXUtil : XUtil := mkXUtil ∅ ∅ false None None.

Inductive reachable : XUtil -> Prop :=
| reach_new : reachable NewXUtil
| reach_attach evtype win mods button fun_ xu :
    reachable xu ->
    reachable (AttachMouseBindCallback evtype win mods button fun_ xu)
| reach_detach evtype win xu :
    reachable xu -> reachable (DetachMouseBindWindow evtype win xu)
| reach_drag_set dragging xu :
    reachable xu -> reachable (MouseDragSet dragging xu)
| reach_step_set f xu :
    reachable xu -> reachable (MouseDragStepSet f xu)
| reach_end_set f xu :
    reachable xu -> reachable (MouseDragEndSet f xu).

(** [N] attachments under one key, in the order of the list. *)
Definition attach_all (evtype : Z) (win : N) (mods : N) (button : N)
    (funs : list MouseBindCallback) (xu : XUtil) : XUtil :=
  foldl (fun xu' fun_ => AttachMouseBindCallback evtype win mods button fun_ xu')
        xu funs.

(** ** Invariants *)

(** The counter of every key is the [int] value of the length of its
    chain, a missing entry counting as [0] on either side. *)
Definition grabs_track_binds (xu : XUtil) : Prop :=
  forall key, grabs_at xu key = int_wrap (len (binds_at xu key)).

(** The invariant on the keys that have both entries. *)
Definition grab_invariant (xu : XUtil) : Prop :=
  forall key chain n,
    mousebinds xu !! key = Some chain ->
    mousegrabs xu !! key = Some n ->
    n = int_wrap (len chain) /\ (len chain <= max_int -> n = len chain).

End Session.

Arguments mkXUtil {Handler DragFn}.
Arguments mousebinds {Handler DragFn}.
Arguments mousegrabs {Handler DragFn}.
Arguments mouseDrag {Handler DragFn}.
Arguments mouseDragStep {Handler DragFn}.
Arguments mouseDragEnd {Handler DragFn}.
Arguments binds_at {Handler DragFn}.
Arguments grabs_at {Handler DragFn}.
Arguments AttachMouseBindCallback {Handler DragFn}.
Arguments MouseBindKeys {Handler DragFn}.
Arguments copy_callbacks {Handler}.
Arguments MouseBindCallbacks {Handler DragFn}.
Arguments ConnectedMouseBind {Handler DragFn}.
Arguments detach_step {Handler DragFn}.
Arguments detach_scan {Handler DragFn}.
Arguments DetachMouseBindWindow {Handler DragFn}.
Arguments MouseBindGrabs {Handler DragFn}.
Arguments MouseDrag {Handler DragFn}.
Arguments MouseDragSet {Handler DragFn}.
Arguments MouseDragStep {Handler DragFn}.
Arguments MouseDragStepSet {Handler DragFn}.
Arguments MouseDragEnd {Handler DragFn}.
Arguments MouseDragEndSet {Handler DragFn}.
Arguments call_Run {Handler DragFn Event World}.
Arguments run_callbacks {Handler DragFn Event World}.
Arguments RunMouseBindCallbacks {Handler DragFn Event World}.
Arguments call_MouseDragFun {Handler DragFn World}.
Arguments NewXUtil {Handler DragFn}.
Arguments reachable {Handler DragFn}.
Arguments attach_all {Handler DragFn}.
Arguments grabs_track_binds {Handler DragFn}.
Arguments grab_invariant {Handler DragFn}.

(** ** The argument list of the specification *)

(** The arguments the specification lists for a drag step or end call,
    after the session handle: [(anchorRootX, anchorRootY, currentRootX,
    currentRootY, currentEventX, currentEventY)]. *)
Record SpecDragArgs : Type := mkSpecDragArgs {
  anchorRootX : Z;
  anchorRootY : Z;
  currentRootX : Z;
  currentRootY : Z;
  currentEventX : Z;
  currentEventY : Z;
}.

(** The six values of that list. *)
Definition spec_values (a : SpecDragArgs) : list Z :=
  [anchorRootX a; anchorRootY a; currentRootX a; currentRootY a;
   currentEventX a; currentEventY a].

(** The integers a call of a [MouseDragFun] hands over: one per integer
    parameter of the type, [rootX], [rootY], [eventX] and [eventY]. *)
Definition param_values (args : MouseDragArgs) : list Z :=
  [rootX args; rootY args; eventX args; eventY args].

(** ** A handler that records its calls *)

(** An implementation of [Run] that leaves the session alone and appends
    the handler and the event it was given to a log, which is the world:
    after a dispatch the log tells who was called, with what, how often
    and in which order. *)
Definition log_Run {Handler DragFn Event : Type} (h : Handler) (ev : Event)
    (st : XUtil Handler DragFn * list (Handler * Event))
    : option (XUtil Handler DragFn * list (Handler * Event)) :=
  Some (st.1, st.2 ++ [(h, ev)]).

(** ** A concrete session *)

(** Handlers and drag functions are numbered, and the world is the log of
    the calls made so far, so that a run shows who was called, with what,
    and in which order. *)
Module Demo.

Inductive Call : Type :=
| RunCall (handler : nat) (event : nat)
| DragCall (f : nat) (rootX rootY eventX eventY : Z).

Definition Session : Type := XUtil nat nat.

Definition Run (h : nat) (event : nat) (st : Session * list Call)
    : option (Session * list Call) :=
  Some (st.1, st.2 ++ [RunCall h event]).

Definition drag_call (f : nat) : MouseDragFun_type nat nat (list Call) :=
  fun st rootX rootY eventX eventY =>
    Some (st.1, st.2 ++ [DragCall f rootX rootY eventX eventY]).

(** X11 event codes and some identifiers. *)
Definition ButtonPress : Z := 4.
Definition ButtonRelease : Z := 5.
Definition W1 : N := 1.
Definition W2 : N := 2.
Definition Button1 : N := 1.
Definition Button2 : N := 2.
Definition cbA : MouseBindCallback nat := Some 1%nat.
Definition cbB : MouseBindCallback nat := Some 2%nat.

Definition fresh : Session := NewXUtil.

(** [cbA] then [cbB] under [(ButtonPress, W1, 0, Button1)]. *)
Definition two_bound : Session :=
  AttachMouseBindCallback ButtonPress W1 0 Button1 cbB
    (AttachMouseBindCallback ButtonPress W1 0 Button1 cbA fresh).

(** The same, and [cbA] under two more keys: another button on [W1], and
    the same button on [W2]. *)
Definition three_keys : Session :=
  AttachMouseBindCallback ButtonPress W2 0 Button1 cbA
    (AttachMouseBindCallback ButtonPress W1 0 Button2 cbA two_bound).

(** Counters without chains: a state no sequence of operations produces. *)
Definition stray_count : Session :=
  mkXUtil ∅ {[ mkMouseBindKey ButtonPress W1 0 Button1 := 5 ]} false None None.

Definition drag_from_100 : SpecDragArgs := mkSpecDragArgs 100 100 140 160 40 60.
Definition drag_from_0 : SpecDragArgs := mkSpecDragArgs 0 0 140 160 40 60.

End Demo.

(** A record whose counter is ahead of its chain: one callback, count 5.
    No run of the operations builds it; it shows what the operations do
    to a counter whatever its value. *)
Definition miscounted : Demo.Session :=
  mkXUtil
    {[ mkMouseBindKey Demo.ButtonPress Demo.W1 0 Demo.Button1 := [Demo.cbA] ]}
    {[ mkMouseBindKey Demo.ButtonPress Demo.W1 0 Demo.Button1 := 5 ]}
    false None None.

(** A drag at its first step, where the pointer is still at the anchor,
    and the four integers of a call with that position. *)
Definition drag_at_start : SpecDragArgs := mkSpecDragArgs 140 160 140 160 40 60.
Definition args_at_start : MouseDragArgs := mkMouseDragArgs 140 160 40 60.

(** A session with a [nil] callback after the two handlers of
    [Demo.two_bound]. *)
Definition with_nil : Demo.Session :=
  AttachMouseBindCallback Demo.ButtonPress Demo.W1 0 Demo.Button1 None
    Demo.two_bound.

(** ** The snapshot of the keys *)

(** The zero value of [MouseBindKey], with which [make] fills a new slice. *)
Definition zero_key : MouseBindKey := mkMouseBindKey 0 0 0 0.

(** The body of the method [MouseBindKeys]:
    [keys := make([]MouseBindKey, len(xu.mousebinds))], [i := 0], then
    [keys[i] = key; i++] for every key the range produces. The range is
    taken in the order [MouseBindKeys] above stands for. The index is at
    most the number of keys, so it is a natural number here. *)
Definition MouseBindKeys_copy {Handler DragFn : Type}
    (xu : XUtil Handler DragFn) : list MouseBindKey :=
  (foldl (fun (st : list MouseBindKey * nat) key =>
            (<[st.2 := key]> st.1, S st.2))
         (replicate (size (mousebinds xu)) zero_key, 0%nat)
         (MouseBindKeys xu)).1.

(** ** Sequences of drag-slot writes *)

(** A call of one of the three setters of the drag slot. *)
Inductive DragOp (DragFn : Type) : Type :=
| OpDragSet (dragging : bool)
| OpStepSet (f : MouseDragFun DragFn)
| OpEndSet (f : MouseDragFun DragFn).

Arguments OpDragSet {DragFn}.
Arguments OpStepSet {DragFn}.
Arguments OpEndSet {DragFn}.

Definition apply_DragOp {Handler DragFn : Type} (xu : XUtil Handler DragFn)
    (op : DragOp DragFn) : XUtil Handler DragFn :=
  match op with
  | OpDragSet dragging => MouseDragSet dragging xu
  | OpStepSet f => MouseDragStepSet f xu
  | OpEndSet f => MouseDragEndSet f xu
  end.

(** The calls of a list, first to last. *)
Definition apply_DragOps {Handler DragFn : Type} (ops : list (DragOp DragFn))
    (xu : XUtil Handler DragFn) : XUtil Handler DragFn :=
  foldl apply_DragOp xu ops.

(** The argument of the last [MouseDragSet], [MouseDragStepSet] and
    [MouseDragEndSet] of a list, or the given value when there is none. *)
Definition last_drag_set {DragFn : Type} (ops : list (DragOp DragFn))
    (before : bool) : bool :=
  foldl (fun acc op => match op with OpDragSet b => b | _ => acc end) before ops.

Definition last_step_set {DragFn : Type} (ops : list (DragOp DragFn))
    (before : MouseDragFun DragFn) : MouseDragFun DragFn :=
  foldl (fun acc op => match op with OpStepSet f => f | _ => acc end) before ops.

Definition last_end_set {DragFn : Type} (ops : list (DragOp DragFn))
    (before : MouseDragFun DragFn) : MouseDragFun DragFn :=
  foldl (fun acc op => match op with OpEndSet f => f | _ => acc end) before ops.

(** ** Package xgraphics: the choice of an icon *)

Module XGraphics.

(** The value of a [uint32] expression whose mathematical value is [n]. *)
Definition uint32_wrap (n : N) : N := (n mod 2 ^ 32)%N.

(** Modelled from the spec: the declaration of [ewmh.WmIcon] is not among
    the sources, and the specification leaves icons out of its scope.
    These are the fields [FindBestIcon] and [EwmhIconToImage] use:
    [Width] and [Height], which [FindBestIcon] multiplies into [uint32]
    variables, and the slice [Data] of 32-bit ARGB pixels. *)
Record WmIcon : Type := mkWmIcon {
  Width : N;
  Height : N;
  Data : list N;
}.

(** What a call of [FindBestIcon] leaves behind when it returns: the
    pointer it returns ([None] is [nil]), held as the icon it points to,
    and the width and height it printed, if it printed. *)
Record FindResult : Type := mkFindResult {
  best_icon : option WmIcon;
  printed : option (N * N);
}.

(** The [uint32] area [Width * Height] the loop compares. *)
Definition icon_area (icon : WmIcon) : N := uint32_wrap (Width icon * Height icon).

Section FindBestIcon.

(** [proportional(w1, h1, w2, h2)] compares two [float64] quotients.
    Floating point is not embedded: the function is taken as given, and
    what is proved of [FindBestIcon] holds whatever it answers. *)
Variable proportional : N -> N -> N -> N -> bool.

(** The loop of [FindBestIcon] from a given [best] on. An element of the
    slice is a pointer, [None] when [nil]; reading [icon.Width] through a
    [nil] pointer panics, which is the result [None]. *)
Fixpoint find_best_loop (width height parea : N)
    (icons : list (option WmIcon)) (best : option WmIcon)
    : option (option WmIcon) :=
  match icons with
  | [] => Some best
  | None :: _ => None
  | Some icon :: rest =>
      if negb (proportional width height (Width icon) (Height icon))
      then find_best_loop width height parea rest best
      else
        match best with
        | None => find_best_loop width height parea rest (Some icon)
        | Some b =>
            let bestArea := uint32_wrap (Width b * Height b) in
            let iconArea := uint32_wrap (Width icon * Height icon) in
            if ((parea <=? iconArea) && (iconArea <=? bestArea)
                || (bestArea <? parea) && (bestArea <? iconArea))%N
            then find_best_loop width height parea rest (Some icon)
            else find_best_loop width height parea rest best
        end
  end.

Definition FindBestIcon (width height : N) (icons : list (option WmIcon))
    : option FindResult :=
  match icons with
  | [] => Some (mkFindResult None None)
  | _ =>
      let parea := uint32_wrap (width * height) in
      match find_best_loop width height parea icons None with
      | None => None
      | Some None => Some (mkFindResult None None)
      | Some (Some b) => Some (mkFindResult (Some b) (Some (Width b, Height b)))
      end
  end.

(** What the loop has established of [best] once it has gone through the
    icons [seen]: [best] is [nil] when none of them is proportional to
    the request; otherwise it is one of them, proportional, the smallest
    in area among the proportional ones that reach the preferred area if
    one does, and the largest of them if none does. *)
Definition best_of (width height : N) (seen : list WmIcon)
    (best : option WmIcon) : Prop :=
  let parea := uint32_wrap (width * height) in
  match best with
  | None =>
      forall c, c ∈ seen -> proportional width height (Width c) (Height c) = false
  | Some b =>
      b ∈ seen
      /\ proportional width height (Width b) (Height b) = true
      /\ forall c,
           c ∈ seen ->
           proportional width height (Width c) (Height c) = true ->
           ((parea <= icon_area c)%N ->
            (parea <= icon_area b)%N /\ (icon_area b <= icon_area c)%N)
           /\ ((icon_area b < parea)%N -> (icon_area c <= icon_area b)%N)
  end.

End FindBestIcon.

(** ** Package xgraphics: loops over pixels *)

(** [for _, a := range l { ... }] and the counting loops, with a body
    that may panic: the state after the last iteration, or [None] as soon
    as an iteration panics. *)
Fixpoint range_loop {S A : Type} (body : S -> A -> option S) (s : S)
    (l : list A) : option S :=
  match l with
  | [] => Some s
  | a :: rest =>
      match body s a with
      | None => None
      | Some s' => range_loop body s' rest
      end
  end.

(** [s[i]] for an [int] index: out of range panics. *)
Definition read_slice {A : Type} (s : list A) (i : Z) : option A :=
  if (i <? 0)%Z then None else s !! Z.to_nat i.

(** [s[i] = v] for an [int] index: out of range panics. *)
Definition write_slice {A : Type} (s : list A) (i : Z) (v : A)
    : option (list A) :=
  if ((0 <=? i) && (i <? len s))%Z then Some (<[Z.to_nat i := v]> s) else None.

Definition uint8_wrap (n : N) : N := (n mod 2 ^ 8)%N.

(** [a << k] and [a + b] on [uint32]. *)
Definition shl32 (a k : N) : N := uint32_wrap (N.shiftl a k).
Definition add32 (a b : N) : N := uint32_wrap (a + b).

(** [color.RGBA], four [uint8]. *)
Record RGBA : Type := mkRGBA {
  R : N;
  G : N;
  B : N;
  A : N;
}.

(** The colour [EwmhIconToImage] makes of one entry of [icon.Data]:
    [alpha := argb >> 24], [red := ((alpha << 24) ^ argb) >> 16], and so
    on, then [color.RGBA{uint8(red), uint8(green), uint8(blue),
    uint8(alpha)}]. *)
Definition argb_to_RGBA (argb : N) : RGBA :=
  let alpha := N.shiftr argb 24 in
  let red := N.shiftr (N.lxor (shl32 alpha 24) argb) 16 in
  let green :=
    N.shiftr (N.lxor (add32 (shl32 alpha 24) (shl32 red 16)) argb) 8 in
  let blue :=
    N.shiftr
      (N.lxor (add32 (add32 (shl32 alpha 24) (shl32 red 16)) (shl32 green 8))
              argb) 0 in
  mkRGBA (uint8_wrap red) (uint8_wrap green) (uint8_wrap blue) (uint8_wrap alpha).

(** What [EwmhIconToImage] does to the two images it creates and returns:
    the calls [img.SetRGBA(x, y, c)] and [mask.Set(x, y, color.Alpha{a})]
    it makes, in order. The images themselves belong to package [image]
    and are not embedded. *)
Record IconImages : Type := mkIconImages {
  img_sets : list (Z * Z * RGBA);
  mask_sets : list (Z * Z * N);
}.

(** The body of the inner loop: the entry [icon.Data[x + (y * height)]],
    its colour, and the two calls. *)
Definition icon_pixel_step (icon : WmIcon) (x : Z) (out : IconImages) (y : Z)
    : option IconImages :=
  let height := Z.of_N (Height icon) in
  match read_slice (Data icon) (int_wrap (x + int_wrap (y * height))) with
  | None => None
  | Some argb =>
      let c := argb_to_RGBA argb in
      Some (mkIconImages (img_sets out ++ [(x, y, c)])
                         (mask_sets out ++ [(x, y, A c)]))
  end.

Definition EwmhIconToImage (icon : WmIcon) : option IconImages :=
  let width := Z.of_N (Width icon) in
  let height := Z.of_N (Height icon) in
  range_loop
    (fun out x => range_loop (icon_pixel_step icon x) out (seqZ 0 height))
    (mkIconImages [] []) (seqZ 0 width).

(** An [image.Image], through the two methods the package calls:
    [Bounds()], and [At(x, y).RGBA()] with its four [uint32] results
    [(r, g, b, a)]. *)
Record Image : Type := mkImage {
  MinX : Z;
  MinY : Z;
  MaxX : Z;
  MaxY : Z;
  At_RGBA : Z -> Z -> N * N * N * N;
}.

Definition getDim (img : Image) : Z * Z :=
  (int_wrap (MaxX img - MinX img), int_wrap (MaxY img - MinY img)).

(** What the loops of [CreatePixmap] build: the buffer [imgData], and the
    lines [println(x, y, width, height, i)] writes. *)
Record PixmapData : Type := mkPixmapData {
  imgData : list N;
  printlns : list (Z * Z * Z * Z * Z);
}.

(** The body of the inner loop of [CreatePixmap]. *)
Definition pixmap_step (img : Image) (width height x : Z) (st : PixmapData)
    (y : Z) : option PixmapData :=
  let '(r, g, b, a) := At_RGBA img x y in
  let i := int_wrap (4 * int_wrap (x + int_wrap (y * width))) in
  let out := printlns st ++ [(x, y, width, height, i)] in
  match write_slice (imgData st) (int_wrap (i + 0)) (uint8_wrap (N.shiftr b 8)) with
  | None => None
  | Some d0 =>
      match write_slice d0 (int_wrap (i + 1)) (uint8_wrap (N.shiftr g 8)) with
      | None => None
      | Some d1 =>
          match write_slice d1 (int_wrap (i + 2)) (uint8_wrap (N.shiftr r 8)) with
          | None => None
          | Some d2 =>
              match write_slice d2 (int_wrap (i + 3))
                      (uint8_wrap (N.shiftr a 8)) with
              | None => None
              | Some d3 => Some (mkPixmapData d3 out)
              end
          end
      end
  end.

(** [CreatePixmap] up to the requests it sends: [getDim], the [make] of
    the buffer (a negative length panics; running out of memory is not
    modelled) and the two loops. The buffer is what it then hands to
    [PutImage]; the connection is not embedded. *)
Definition CreatePixmap_imgData (img : Image) : option PixmapData :=
  let '(width, height) := getDim img in
  let n := int_wrap (int_wrap (width * height) * 4) in
  if (n <? 0)%Z then None
  else
    range_loop
      (fun st x => range_loop (pixmap_step img width height x) st (seqZ 0 height))
      (mkPixmapData (replicate (Z.to_nat n) 0%N) []) (seqZ 0 width).

End XGraphics.

(** ** Concrete icons and images *)

Module Scenes.
Import XGraphics.

(** A stand-in for [proportional] that compares the quotients exactly. *)
Definition exact_proportional (w1 h1 w2 h2 : N) : bool :=
  (w1 * h2 =? w2 * h1)%N.

Definition icon16 : WmIcon := mkWmIcon 16 16 [].
Definition icon32 : WmIcon := mkWmIcon 32 32 [].
Definition icon48 : WmIcon := mkWmIcon 48 48 [].
Definition banner : WmIcon := mkWmIcon 64 16 [].

(** Three square icons and one that is not, for a request of 24 by 24. *)
Definition icons : list WmIcon := [icon16; icon48; banner; icon32].

(** Opaque red, opaque blue and half-transparent green. *)
Definition red : N := 0xFFFF0000.
Definition blue : N := 0xFF0000FF.
Definition green50 : N := 0x8000FF00.

(** One column of two pixels, and one row of two pixels. *)
Definition tall : WmIcon := mkWmIcon 1 2 [red; blue].
Definition wide : WmIcon := mkWmIcon 2 1 [red; blue].

(** A two by one image with its corner at (5, 5): the pixel at (0, 0) is
    opaque red and the one at (1, 0) half-transparent green, in 16-bit
    channels. *)
Definition two_pixels : Image :=
  mkImage 5 5 7 6
    (fun x y => if (x =? 0)%Z then (0xFFFF, 0, 0, 0xFFFF)%N
                else (0, 0x8080, 0, 0x8080)%N).

End Scenes.

(** * Properties *)

(** ** Integer wrap-around *)

Lemma int_wrap_small (z : Z) : min_int <= z <= max_int -> int_wrap z = z.
Proof.
  unfold min_int, max_int, int_wrap, int_half, int_modulus, int_bits.
  intros Hz. rewrite Z.mod_small; lia.
Qed.

Lemma int_wrap_add_l (a b : Z) : int_wrap (int_wrap a + b) = int_wrap (a + b).
Proof.
  unfold int_wrap. f_equal.
  replace ((a + int_half) mod int_modulus - int_half + b + int_half)
    with ((a + int_half) mod int_modulus + b) by lia.
  rewrite Zplus_mod_idemp_l. f_equal. lia.
Qed.

Lemma int_wrap_idemp (a : Z) : int_wrap (int_wrap a) = int_wrap a.
Proof.
  rewrite <- (Z.add_0_r (int_wrap a)) at 1.
  rewrite int_wrap_add_l. by rewrite Z.add_0_r.
Qed.

Lemma int_wrap_cancel (a : Z) : int_wrap (int_wrap a - a) = 0.
Proof.
  replace (int_wrap a - a) with (int_wrap a + - a) by lia.
  rewrite int_wrap_add_l. by rewrite Z.add_opp_diag_r.
Qed.

Lemma len_nonneg {A : Type} (s : list A) : 0 <= len s.
Proof. unfold len. lia. Qed.

Lemma len_app {A : Type} (s t : list A) : len (s ++ t) = len s + len t.
Proof. unfold len. rewrite length_app. lia. Qed.

Lemma int_wrap_len {A : Type} (s : list A) :
  len s <= max_int -> int_wrap (len s) = len s.
Proof.
  intros Hs. apply int_wrap_small. split; [|done].
  pose proof (len_nonneg s). unfold min_int, int_half, int_bits. lia.
Qed.

(** ** The snapshot copy *)

Section Copy.
Context {A : Type}.

Lemma copy_loop_from (src : list A) : forall (n : nat) (acc : list A),
  length acc = (n + length src)%nat ->
  foldl (fun cbs (ic : nat * A) => <[ic.1 := ic.2]> cbs) acc
        (imap (fun i cb => ((n + i)%nat, cb)) src)
  = take n acc ++ src.
Proof.
  induction src as [|x src IH]; intros n acc Hlen; simpl in *.
  - rewrite app_nil_r, firstn_all2; [done | lia].
  - rewrite (imap_ext _ (fun i cb => ((S n + i)%nat, cb)))
      by (intros; simpl; f_equal; lia).
    rewrite IH by (rewrite length_insert; lia).
    rewrite Nat.add_0_r.
    rewrite (take_S_r _ _ x) by (apply list_lookup_insert_eq; lia).
    rewrite take_insert_ge by lia.
    by rewrite <- app_assoc.
Qed.
End Copy.

Lemma copy_callbacks_id {Handler : Type} (src : list (MouseBindCallback Handler)) :
  copy_callbacks src = src.
Proof.
  unfold copy_callbacks.
  pose proof (copy_loop_from src 0 (replicate (length src) None)) as Hcopy.
  simpl in Hcopy. apply Hcopy. by rewrite length_replicate.
Qed.

(** ** Attach and detach, entry by entry *)

Section Registry.
Context {Handler DragFn : Type}.
Implicit Types (xu : XUtil Handler DragFn) (key k : MouseBindKey).

Lemma key_matches_spec evtype win k :
  key_matches evtype win k = true <-> Evtype k = evtype /\ Win k = win.
Proof.
  unfold key_matches.
  by rewrite andb_true_iff, !bool_decide_eq_true.
Qed.

Lemma key_matches_mk evtype win mods button :
  key_matches evtype win (mkMouseBindKey evtype win mods button) = true.
Proof. by apply key_matches_spec. Qed.

Lemma attach_binds_same evtype win mods button fun_ xu :
  let key := mkMouseBindKey evtype win mods button in
  mousebinds (AttachMouseBindCallback evtype win mods button fun_ xu) !! key
  = Some (binds_at xu key ++ [fun_]).
Proof.
  unfold AttachMouseBindCallback, binds_at; simpl.
  rewrite lookup_insert_eq.
  destruct (mousebinds xu !! _) as [chain|] eqn:Hk; simpl.
  - by rewrite Hk.
  - by rewrite lookup_insert_eq.
Qed.

Lemma attach_binds_other evtype win mods button fun_ xu k :
  k <> mkMouseBindKey evtype win mods button ->
  mousebinds (AttachMouseBindCallback evtype win mods button fun_ xu) !! k
  = mousebinds xu !! k.
Proof.
  intros Hne. unfold AttachMouseBindCallback; simpl.
  rewrite lookup_insert_ne by done.
  destruct (mousebinds xu !! mkMouseBindKey _ _ _ _); [done|].
  by rewrite lookup_insert_ne.
Qed.

Lemma attach_grabs_same evtype win mods button fun_ xu :
  let key := mkMouseBindKey evtype win mods button in
  mousegrabs (AttachMouseBindCallback evtype win mods button fun_ xu) !! key
  = Some (int_wrap (grabs_at xu key + 1)).
Proof. unfold AttachMouseBindCallback; simpl. by rewrite lookup_insert_eq. Qed.

Lemma attach_grabs_other evtype win mods button fun_ xu k :
  k <> mkMouseBindKey evtype win mods button ->
  mousegrabs (AttachMouseBindCallback evtype win mods button fun_ xu) !! k
  = mousegrabs xu !! k.
Proof.
  intros Hne. unfold AttachMouseBindCallback; simpl.
  by rewrite lookup_insert_ne.
Qed.

(** One iteration of the detach loop, seen from a key [k]. *)
Lemma detach_step_binds evtype win xu key k :
  mousebinds (detach_step evtype win xu key) !! k
  = if key_matches evtype win key && bool_decide (k = key)
    then None else mousebinds xu !! k.
Proof.
  unfold detach_step.
  destruct (key_matches evtype win key); simpl; [|done].
  case_bool_decide as Hk.
  - subst k. by rewrite lookup_delete_eq.
  - by rewrite lookup_delete_ne.
Qed.

Lemma detach_step_grabs evtype win xu key k :
  mousegrabs (detach_step evtype win xu key) !! k
  = if key_matches evtype win key && bool_decide (k = key)
    then Some (int_wrap (grabs_at xu key - len (binds_at xu key)))
    else mousegrabs xu !! k.
Proof.
  unfold detach_step.
  destruct (key_matches evtype win key); simpl; [|done].
  case_bool_decide as Hk.
  - subst k. by rewrite lookup_insert_eq.
  - by rewrite lookup_insert_ne.
Qed.

Lemma detach_step_drag evtype win xu key :
  mouseDrag (detach_step evtype win xu key) = mouseDrag xu
  /\ mouseDragStep (detach_step evtype win xu key) = mouseDragStep xu
  /\ mouseDragEnd (detach_step evtype win xu key) = mouseDragEnd xu.
Proof. unfold detach_step. by destruct (key_matches evtype win key). Qed.

(** The loop over any key order without repeats. *)
Lemma detach_scan_binds evtype win keys : forall xu k,
  mousebinds (detach_scan evtype win keys xu) !! k
  = if key_matches evtype win k && bool_decide (k ∈ keys)
    then None else mousebinds xu !! k.
Proof.
  unfold detach_scan.
  induction keys as [|key keys IH]; intros xu k; simpl.
  - by rewrite andb_false_r.
  - rewrite IH, detach_step_binds.
    destruct (decide (k = key)) as [->|Hne];
      destruct (key_matches evtype win key) eqn:Hkey;
      try destruct (key_matches evtype win k) eqn:Hk;
      repeat case_bool_decide; simpl; try done;
      rewrite ?elem_of_cons in *; tauto.
Qed.

Lemma detach_scan_grabs evtype win keys : forall xu k,
  NoDup keys ->
  mousegrabs (detach_scan evtype win keys xu) !! k
  = if key_matches evtype win k && bool_decide (k ∈ keys)
    then Some (int_wrap (grabs_at xu k - len (binds_at xu k)))
    else mousegrabs xu !! k.
Proof.
  unfold detach_scan.
  induction keys as [|key keys IH]; intros xu k Hnd; simpl.
  - by rewrite andb_false_r.
  - apply NoDup_cons in Hnd as [Hnotin Hnd].
    rewrite IH by done. unfold grabs_at, binds_at.
    rewrite !detach_step_grabs, detach_step_binds.
    destruct (decide (k = key)) as [->|Hne];
      destruct (key_matches evtype win key) eqn:Hkey;
      try destruct (key_matches evtype win k) eqn:Hk;
      repeat case_bool_decide; simpl; try done;
      rewrite ?elem_of_cons in *; tauto.
Qed.

Lemma detach_scan_drag evtype win keys : forall xu,
  mouseDrag (detach_scan evtype win keys xu) = mouseDrag xu
  /\ mouseDragStep (detach_scan evtype win keys xu) = mouseDragStep xu
  /\ mouseDragEnd (detach_scan evtype win keys xu) = mouseDragEnd xu.
Proof.
  unfold detach_scan.
  induction keys as [|key keys IH]; intros xu; simpl; [done|].
  destruct (IH (detach_step evtype win xu key)) as (-> & -> & ->).
  apply detach_step_drag.
Qed.

Lemma detach_scan_no_match evtype win keys : forall xu,
  (forall k, k ∈ keys -> key_matches evtype win k = false) ->
  detach_scan evtype win keys xu = xu.
Proof.
  unfold detach_scan.
  induction keys as [|key keys IH]; intros xu Hno; simpl; [done|].
  unfold detach_step at 2. rewrite (Hno key) by set_solver.
  apply IH. intros k Hk. apply Hno. set_solver.
Qed.

Lemma elem_of_MouseBindKeys xu k :
  k ∈ MouseBindKeys xu <-> is_Some (mousebinds xu !! k).
Proof.
  unfold MouseBindKeys. rewrite list_elem_of_fmap. split.
  - intros ([k' chain] & -> & Hin). apply elem_of_map_to_list in Hin. by exists chain.
  - intros [chain Hk]. exists (k, chain). split; [done|].
    by apply elem_of_map_to_list.
Qed.

Lemma NoDup_MouseBindKeys xu : NoDup (MouseBindKeys xu).
Proof. apply NoDup_fst_map_to_list. Qed.

Lemma connected_scan_true evtype win (keys : list MouseBindKey) :
  connected_scan evtype win keys = true
  <-> exists k, k ∈ keys /\ key_matches evtype win k = true.
Proof.
  induction keys as [|key keys IH]; simpl.
  - split; [done|]. intros (k & Hin & _). by apply elem_of_nil in Hin.
  - destruct (key_matches evtype win key) eqn:Hm.
    + split; [|done]. intros _. exists key. split; [left|done].
    + rewrite IH. split.
      * intros (k & Hin & Hk). exists k. split; [by right|done].
      * intros (k & Hin & Hk). exists k. split; [|done].
        apply elem_of_cons in Hin as [->|Hin]; [congruence|done].
Qed.

Lemma connected_true_iff xu evtype win :
  ConnectedMouseBind evtype win xu = true
  <-> exists mods button,
        is_Some (mousebinds xu !! mkMouseBindKey evtype win mods button).
Proof.
  unfold ConnectedMouseBind. rewrite connected_scan_true. split.
  - intros ([e w m b] & Hin & Hm).
    apply key_matches_spec in Hm as [He Hw]; simpl in He, Hw. subst e w.
    exists m, b. by apply elem_of_MouseBindKeys.
  - intros (m & b & Hsome). exists (mkMouseBindKey evtype win m b).
    split; [by apply elem_of_MouseBindKeys | apply key_matches_mk].
Qed.

(** [DetachMouseBindWindow], entry by entry. *)
Lemma detach_binds evtype win xu k :
  mousebinds (DetachMouseBindWindow evtype win xu) !! k
  = if key_matches evtype win k then None else mousebinds xu !! k.
Proof.
  unfold DetachMouseBindWindow. rewrite detach_scan_binds.
  destruct (key_matches evtype win k); simpl; [|done].
  case_bool_decide as Hin; [done|].
  rewrite elem_of_MouseBindKeys in Hin.
  by destruct (mousebinds xu !! k) as [chain|]; [destruct Hin; eauto|].
Qed.

Lemma detach_grabs evtype win xu k :
  mousegrabs (DetachMouseBindWindow evtype win xu) !! k
  = match mousebinds xu !! k with
    | Some chain =>
        if key_matches evtype win k
        then Some (int_wrap (grabs_at xu k - len chain))
        else mousegrabs xu !! k
    | None => mousegrabs xu !! k
    end.
Proof.
  unfold DetachMouseBindWindow.
  rewrite detach_scan_grabs by apply NoDup_MouseBindKeys.
  unfold binds_at.
  destruct (mousebinds xu !! k) as [chain|] eqn:Hk; simpl.
  - destruct (key_matches evtype win k); simpl; [|done].
    rewrite bool_decide_eq_true_2; [done|].
    apply elem_of_MouseBindKeys. by rewrite Hk.
  - rewrite (bool_decide_eq_false_2 (k ∈ MouseBindKeys xu)).
    + by rewrite andb_false_r.
    + rewrite elem_of_MouseBindKeys, Hk. by intros [? ?].
Qed.

Lemma detach_drag evtype win xu :
  mouseDrag (DetachMouseBindWindow evtype win xu) = mouseDrag xu
  /\ mouseDragStep (DetachMouseBindWindow evtype win xu) = mouseDragStep xu
  /\ mouseDragEnd (DetachMouseBindWindow evtype win xu) = mouseDragEnd xu.
Proof. apply detach_scan_drag. Qed.

Lemma detach_nothing evtype win xu :
  (forall k, key_matches evtype win k = true -> mousebinds xu !! k = None) ->
  DetachMouseBindWindow evtype win xu = xu.
Proof.
  intros Hno. apply detach_scan_no_match. intros k Hin.
  apply elem_of_MouseBindKeys in Hin as [chain Hk].
  destruct (key_matches evtype win k) eqn:Hm; [|done].
  rewrite (Hno k Hm) in Hk. done.
Qed.

(** ** The order of iteration does not matter *)

Lemma XUtil_eq xu1 xu2 :
  mousebinds xu1 = mousebinds xu2 ->
  mousegrabs xu1 = mousegrabs xu2 ->
  mouseDrag xu1 = mouseDrag xu2 ->
  mouseDragStep xu1 = mouseDragStep xu2 ->
  mouseDragEnd xu1 = mouseDragEnd xu2 ->
  xu1 = xu2.
Proof. destruct xu1, xu2; simpl. by intros -> -> -> -> ->. Qed.

Lemma detach_scan_any_order evtype win xu (keys : list MouseBindKey) :
  keys ≡ₚ MouseBindKeys xu ->
  detach_scan evtype win keys xu = DetachMouseBindWindow evtype win xu.
Proof.
  intros Hperm. unfold DetachMouseBindWindow.
  assert (NoDup keys) as Hnd.
  { rewrite Hperm. apply NoDup_MouseBindKeys. }
  assert (forall k, bool_decide (k ∈ keys) = bool_decide (k ∈ MouseBindKeys xu))
    as Hmem.
  { intros k. apply bool_decide_ext. by rewrite Hperm. }
  destruct (detach_scan_drag evtype win keys xu) as (Hd1 & Hs1 & He1).
  destruct (detach_scan_drag evtype win (MouseBindKeys xu) xu) as (Hd2 & Hs2 & He2).
  apply XUtil_eq; try congruence.
  - apply map_eq. intros k. by rewrite !detach_scan_binds, Hmem.
  - apply map_eq. intros k.
    rewrite !detach_scan_grabs by (done || apply NoDup_MouseBindKeys).
    by rewrite Hmem.
Qed.

Lemma connected_scan_any_order evtype win xu (keys : list MouseBindKey) :
  keys ≡ₚ MouseBindKeys xu ->
  connected_scan evtype win keys = ConnectedMouseBind evtype win xu.
Proof.
  intros Hperm. unfold ConnectedMouseBind.
  apply eq_true_iff_eq. rewrite !connected_scan_true.
  by setoid_rewrite Hperm.
Qed.

(** ** The counters track the chains *)

Lemma int_wrap_0 : int_wrap 0 = 0.
Proof. reflexivity. Qed.

Lemma track_new : grabs_track_binds (@NewXUtil Handler DragFn).
Proof. intros k. unfold grabs_at, binds_at; simpl. by rewrite !lookup_empty. Qed.

Lemma track_attach evtype win mods button fun_ xu :
  grabs_track_binds xu ->
  grabs_track_binds (AttachMouseBindCallback evtype win mods button fun_ xu).
Proof.
  intros Htrack k. unfold grabs_at, binds_at.
  destruct (decide (k = mkMouseBindKey evtype win mods button)) as [->|Hne].
  - rewrite attach_binds_same, attach_grabs_same; simpl.
    rewrite Htrack, int_wrap_add_l, len_app. done.
  - rewrite attach_binds_other, attach_grabs_other by done. apply Htrack.
Qed.

Lemma track_detach evtype win xu :
  grabs_track_binds xu ->
  grabs_track_binds (DetachMouseBindWindow evtype win xu).
Proof.
  intros Htrack k. specialize (Htrack k). revert Htrack.
  unfold grabs_at, binds_at. rewrite detach_binds, detach_grabs.
  destruct (mousebinds xu !! k) as [chain|] eqn:Hk;
    destruct (key_matches evtype win k); simpl; try done.
  intros Ht. unfold grabs_at. by rewrite Ht, int_wrap_cancel.
Qed.

Lemma reachable_track xu : reachable xu -> grabs_track_binds xu.
Proof.
  induction 1 as [| ? ? ? ? ? xu _ IH | ? ? xu _ IH
                  | ? xu _ IH | ? xu _ IH | ? xu _ IH].
  - apply track_new.
  - by apply track_attach.
  - by apply track_detach.
  - exact IH.
  - exact IH.
  - exact IH.
Qed.

Lemma track_invariant xu : grabs_track_binds xu -> grab_invariant xu.
Proof.
  intros Htrack k chain n Hb Hg. specialize (Htrack k).
  unfold grabs_at, binds_at in Htrack. rewrite Hb, Hg in Htrack; simpl in Htrack.
  subst n. split; [done|]. apply int_wrap_len.
Qed.

(** A key without a chain has count [0] in every reachable session. *)
Lemma reachable_no_chain xu k :
  reachable xu -> mousebinds xu !! k = None -> grabs_at xu k = 0.
Proof.
  intros Hr Hk.
  transitivity (int_wrap (len (binds_at xu k))); [by apply reachable_track|].
  unfold binds_at. by rewrite Hk.
Qed.

(** ** Repeated attachment *)

Lemma attach_all_binds evtype win mods button funs : forall xu,
  let key := mkMouseBindKey evtype win mods button in
  mousebinds (attach_all evtype win mods button funs xu) !! key
  = if decide (funs = []) then mousebinds xu !! key
    else Some (binds_at xu key ++ funs).
Proof.
  unfold attach_all.
  induction funs as [|f funs IH]; intros xu; simpl; [done|].
  rewrite IH. unfold binds_at at 1. rewrite !attach_binds_same; simpl.
  destruct funs; simpl; [done|]. by rewrite <- app_assoc.
Qed.

Lemma attach_all_binds_at evtype win mods button funs xu :
  let key := mkMouseBindKey evtype win mods button in
  binds_at (attach_all evtype win mods button funs xu) key
  = binds_at xu key ++ funs.
Proof.
  simpl. unfold binds_at at 1. rewrite attach_all_binds.
  destruct funs; simpl; [by rewrite app_nil_r | done].
Qed.

Lemma attach_all_reachable evtype win mods button funs : forall xu,
  reachable xu -> reachable (attach_all evtype win mods button funs xu).
Proof.
  unfold attach_all.
  induction funs as [|f funs IH]; intros xu Hr; simpl; [done|].
  apply IH. by constructor.
Qed.

End Registry.

(** * The claims *)

Section RegistryClaims.
Context {Handler DragFn : Type}.
Implicit Types (xu : XUtil Handler DragFn) (key k : MouseBindKey).

(** C1. On every session, [AttachMouseBindCallback] adds one entry to the
    chain of its key and one to the counter of that key, together; and
    [DetachMouseBindWindow] takes from the counter of each key it removes
    exactly the length of the chain it removes, whatever the counter
    was, and leaves alone every counter whose chain it leaves alone: it
    never sets a counter by itself. So both operations keep the equation
    counter = length of the chain (as an [int], a missing entry counting
    as 0), and in every session the operations can produce, a key that
    has both entries has the counter equal to the length of its chain
    (the length itself whenever it fits an [int]), also after a further
    attachment or detachment, which brings the count of a removed key to
    0. *)
Theorem grab_count_tracks_chain_length xu :
  (forall evtype win mods button fun_,
      let key := mkMouseBindKey evtype win mods button in
      let xu' := AttachMouseBindCallback evtype win mods button fun_ xu in
      mousebinds xu' !! key = Some (binds_at xu key ++ [fun_])
      /\ len (binds_at xu' key) = len (binds_at xu key) + 1
      /\ mousegrabs xu' !! key = Some (int_wrap (grabs_at xu key + 1)))
  /\ (forall evtype win,
        let xu' := DetachMouseBindWindow evtype win xu in
        (forall k chain,
            mousebinds xu !! k = Some chain ->
            key_matches evtype win k = true ->
            mousebinds xu' !! k = None
            /\ mousegrabs xu' !! k
               = Some (int_wrap (grabs_at xu k - len chain)))
        /\ (forall k,
              mousebinds xu' !! k = mousebinds xu !! k ->
              mousegrabs xu' !! k = mousegrabs xu !! k))
  /\ (grabs_track_binds xu ->
      grab_invariant xu
      /\ (forall evtype win mods button fun_,
            grabs_track_binds
              (AttachMouseBindCallback evtype win mods button fun_ xu))
      /\ (forall evtype win,
            grabs_track_binds (DetachMouseBindWindow evtype win xu)))
  /\ (reachable xu ->
      grabs_track_binds xu
      /\ grab_invariant xu
      /\ (forall evtype win mods button fun_,
            grab_invariant
              (AttachMouseBindCallback evtype win mods button fun_ xu))
      /\ (forall evtype win,
            grab_invariant (DetachMouseBindWindow evtype win xu)
            /\ forall k chain,
                 mousebinds xu !! k = Some chain ->
                 key_matches evtype win k = true ->
                 grabs_at (DetachMouseBindWindow evtype win xu) k = 0)).
Proof.
  split; [|split; [|split]].
  - intros evtype win mods button fun_ key xu'. subst key xu'.
    split; [apply attach_binds_same|]. split; [|apply attach_grabs_same].
    unfold binds_at at 1. rewrite attach_binds_same; simpl. by rewrite len_app.
  - intros evtype win xu'. subst xu'. split.
    + intros k chain Hk Hm. split; [by rewrite detach_binds, Hm|].
      by rewrite detach_grabs, Hk, Hm.
    + intros k. rewrite detach_binds, detach_grabs.
      destruct (mousebinds xu !! k) as [chain|];
        destruct (key_matches evtype win k); done.
  - intros Htrack. split; [by apply track_invariant|]. split.
    + intros. by apply track_attach.
    + intros. by apply track_detach.
  - intros Hr. pose proof (reachable_track xu Hr) as Htrack.
    split; [done|]. split; [by apply track_invariant|]. split.
    + intros. by apply track_invariant, track_attach.
    + intros evtype win. split; [by apply track_invariant, track_detach|].
      intros k chain Hk Hm.
      unfold grabs_at at 1. rewrite detach_grabs, Hk, Hm; simpl.
      rewrite (Htrack k). unfold binds_at. rewrite Hk; simpl.
      apply int_wrap_cancel.
Qed.

(** C2. Take a reachable session in which a key has no chain. After
    attaching [N] callbacks under that key, in any mix and with repeats
    allowed, [MouseBindCallbacks] returns those [N] callbacks (so a
    sequence of length [N]) and [MouseBindGrabs] returns [N]; [N] is at
    most the largest [int], as the length of a slice is. *)
Theorem attach_n_gives_n xu evtype win mods button
    (funs : list (MouseBindCallback Handler)) :
  let key := mkMouseBindKey evtype win mods button in
  let xu' := attach_all evtype win mods button funs xu in
  reachable xu ->
  mousebinds xu !! key = None ->
  len funs <= max_int ->
  MouseBindCallbacks xu' key = funs
  /\ length (MouseBindCallbacks xu' key) = length funs
  /\ MouseBindGrabs evtype win mods button xu' = len funs.
Proof.
  intros key xu' Hr Hnone Hfit.
  assert (binds_at xu' key = funs) as Hchain.
  { subst xu' key. rewrite attach_all_binds_at. unfold binds_at.
    by rewrite Hnone. }
  unfold MouseBindCallbacks. rewrite copy_callbacks_id, Hchain.
  split; [done|]. split; [done|].
  unfold MouseBindGrabs. fold key.
  rewrite (reachable_track xu' (attach_all_reachable _ _ _ _ _ _ Hr) key).
  rewrite Hchain. by apply int_wrap_len.
Qed.

(** C3. [DetachMouseBindWindow(evtype, win)] removes the chain of every
    key whose event type and window are [(evtype, win)], whatever its
    modifiers and button, and of no other key. Chains and counters of
    the keys with another window or event type are as before. In a
    reachable session, [MouseBindGrabs] is then [0] for every key with
    that event type and window, the removed ones among them. *)
Theorem detach_window_removes_matching xu evtype win :
  let xu' := DetachMouseBindWindow evtype win xu in
  (forall k,
      mousebinds xu' !! k
      = if key_matches evtype win k then None else mousebinds xu !! k)
  /\ (forall k,
        key_matches evtype win k = false ->
        mousebinds xu' !! k = mousebinds xu !! k
        /\ mousegrabs xu' !! k = mousegrabs xu !! k)
  /\ (reachable xu ->
      forall mods button, MouseBindGrabs evtype win mods button xu' = 0).
Proof.
  intros xu'. subst xu'. split; [|split].
  - intros k. apply detach_binds.
  - intros k Hm. rewrite detach_binds, detach_grabs, Hm.
    by destruct (mousebinds xu !! k).
  - intros Hr mods button. unfold MouseBindGrabs.
    set (key := mkMouseBindKey evtype win mods button).
    rewrite (reachable_track _ (reach_detach _ _ evtype win xu Hr) key).
    unfold binds_at. rewrite detach_binds.
    unfold key. by rewrite key_matches_mk.
Qed.

(** C6. [ConnectedMouseBind(evtype, win)] is true exactly when some key
    in the chain map has that event type and that window, whatever its
    modifiers and button: any modifiers and any button will do. *)
Theorem connected_iff_some_key xu evtype win :
  (ConnectedMouseBind evtype win xu = true
   <-> exists k, is_Some (mousebinds xu !! k)
                 /\ Evtype k = evtype /\ Win k = win)
  /\ (ConnectedMouseBind evtype win xu = true
      <-> exists mods button,
            is_Some (mousebinds xu !! mkMouseBindKey evtype win mods button)).
Proof.
  split; [|apply connected_true_iff].
  rewrite connected_true_iff. split.
  - intros (m & b & Hsome). by exists (mkMouseBindKey evtype win m b).
  - intros ([e w m b] & Hsome & He & Hw); simpl in He, Hw. subst e w.
    by exists m, b.
Qed.

(** C8. When no key with event type and window [(evtype, win)] has a
    chain, [DetachMouseBindWindow(evtype, win)] returns the session it
    was given, and so does a second call; in a reachable session
    [MouseBindGrabs] is [0] for every key with that event type and
    window before, between and after the two calls. *)
Theorem detach_window_twice_noop xu evtype win :
  (forall k, key_matches evtype win k = true -> mousebinds xu !! k = None) ->
  let once := DetachMouseBindWindow evtype win xu in
  let twice := DetachMouseBindWindow evtype win once in
  once = xu /\ twice = xu
  /\ (reachable xu ->
      forall mods button,
        MouseBindGrabs evtype win mods button xu = 0
        /\ MouseBindGrabs evtype win mods button once = 0
        /\ MouseBindGrabs evtype win mods button twice = 0).
Proof.
  intros Hno once twice.
  assert (once = xu) as Honce by by apply detach_nothing.
  assert (twice = xu) as Htwice.
  { subst twice. rewrite Honce. by apply detach_nothing. }
  split; [done|]. split; [done|].
  intros Hr mods button. rewrite Honce, Htwice.
  assert (MouseBindGrabs evtype win mods button xu = 0) as Hz.
  { apply reachable_no_chain; [done|]. apply Hno, key_matches_mk. }
  done.
Qed.

(** C10. [AttachMouseBindCallback] under a key leaves the chain and the
    counter of every other key as they were, and makes the chain of its
    own key the former chain, in its order, followed by the new
    callback. *)
Theorem attach_touches_one_key xu evtype win mods button
    (fun_ : MouseBindCallback Handler) :
  let key := mkMouseBindKey evtype win mods button in
  let xu' := AttachMouseBindCallback evtype win mods button fun_ xu in
  (forall k,
      k <> key ->
      mousebinds xu' !! k = mousebinds xu !! k
      /\ mousegrabs xu' !! k = mousegrabs xu !! k
      /\ MouseBindCallbacks xu' k = MouseBindCallbacks xu k
      /\ MouseBindGrabs (Evtype k) (Win k) (Mod k) (Button k) xu'
         = MouseBindGrabs (Evtype k) (Win k) (Mod k) (Button k) xu)
  /\ mousebinds xu' !! key = Some (binds_at xu key ++ [fun_])
  /\ MouseBindCallbacks xu' key = MouseBindCallbacks xu key ++ [fun_].
Proof.
  intros key xu'. subst key xu'. split; [|split].
  - intros k Hne.
    assert (mousebinds (AttachMouseBindCallback evtype win mods button fun_ xu) !! k
            = mousebinds xu !! k) as Hb by by apply attach_binds_other.
    assert (mousegrabs (AttachMouseBindCallback evtype win mods button fun_ xu) !! k
            = mousegrabs xu !! k) as Hg by by apply attach_grabs_other.
    split; [done|]. split; [done|]. split.
    + unfold MouseBindCallbacks, binds_at. by rewrite Hb.
    + unfold MouseBindGrabs, grabs_at.
      destruct k as [e w m b]; cbn [Evtype Win Mod Button]. by rewrite Hg.
  - apply attach_binds_same.
  - unfold MouseBindCallbacks. rewrite !copy_callbacks_id.
    unfold binds_at at 1. by rewrite attach_binds_same.
Qed.

End RegistryClaims.

Section DispatchClaims.
Context {Handler DragFn Event World : Type}.
Variable Run : Handler -> Event -> XUtil Handler DragFn * World
               -> option (XUtil Handler DragFn * World).
Implicit Types (xu : XUtil Handler DragFn) (wd : World).

Lemma run_callbacks_app event (cbs1 cbs2 : list (MouseBindCallback Handler)) :
  forall st,
    run_callbacks Run event (cbs1 ++ cbs2) st
    = run_callbacks Run event cbs1 st ≫= run_callbacks Run event cbs2.
Proof.
  induction cbs1 as [|cb cbs1 IH]; intros st; simpl; [done|].
  destruct (call_Run Run event cb st) as [st'|]; simpl; [apply IH | done].
Qed.

Lemma dispatch_unfold event evtype win mods button xu wd :
  RunMouseBindCallbacks Run event evtype win mods button (xu, wd)
  = run_callbacks Run event
      (binds_at xu (mkMouseBindKey evtype win mods button)) (xu, wd).
Proof.
  unfold RunMouseBindCallbacks, MouseBindCallbacks; simpl.
  by rewrite copy_callbacks_id.
Qed.

Lemma run_callbacks_foldl event (cbs : list (MouseBindCallback Handler)) :
  forall st,
    run_callbacks Run event cbs st
    = foldl (fun acc cb => acc ≫= fun st' => cb ≫= fun h => Run h event st')
            (Some st) cbs.
Proof.
  assert (forall l : list (MouseBindCallback Handler),
            foldl (fun acc cb => acc ≫= fun st' => cb ≫= fun h => Run h event st')
                  None l = None) as Hnone.
  { induction l as [|cb l IH]; simpl; [done | apply IH]. }
  induction cbs as [|cb cbs IH]; intros st; simpl; [done|].
  destruct cb as [h|]; simpl; [|by rewrite Hnone].
  destruct (Run h event st) as [st'|]; simpl; [apply IH | by rewrite Hnone].
Qed.

(** C4. [RunMouseBindCallbacks] calls the callbacks stored under the key
    made of its arguments, first entry first, each entry once, each with
    the raw event, and nothing else: its result is the result of
    threading the session and the world through the calls of the chain
    from left to right (a [nil] entry or a handler that panics ends it).
    With handlers that only record their calls, the record after a
    dispatch is the record before followed by one line per callback of
    the chain, in the order of the chain. After attaching [A] and then
    [B] under a key the chain is the former chain followed by [A] and
    [B], so a dispatch runs the callbacks that were there before, then
    [A], then [B]; when none was there, it is [A] followed by [B]. *)
Theorem dispatch_in_attach_order event evtype win mods button xu wd
    (A B : Handler) :
  let key := mkMouseBindKey evtype win mods button in
  let xu' :=
    AttachMouseBindCallback evtype win mods button (Some B)
      (AttachMouseBindCallback evtype win mods button (Some A) xu) in
  let thread (st : XUtil Handler DragFn * World)
      (cbs : list (MouseBindCallback Handler)) :=
    foldl (fun acc cb => acc ≫= fun st' => cb ≫= fun h => Run h event st')
          (Some st) cbs in
  RunMouseBindCallbacks Run event evtype win mods button (xu, wd)
  = thread (xu, wd) (binds_at xu key)
  /\ (forall (hs : list Handler) (log : list (Handler * Event)),
        binds_at xu key = Some <$> hs ->
        RunMouseBindCallbacks log_Run event evtype win mods button (xu, log)
        = Some (xu, log ++ ((fun h => (h, event)) <$> hs)))
  /\ binds_at xu' key = binds_at xu key ++ [Some A; Some B]
  /\ RunMouseBindCallbacks Run event evtype win mods button (xu', wd)
     = thread (xu', wd) (binds_at xu key)
       ≫= (fun st => Run A event st ≫= Run B event)
  /\ (mousebinds xu !! key = None ->
      RunMouseBindCallbacks Run event evtype win mods button (xu', wd)
      = Run A event (xu', wd) ≫= Run B event)
  /\ (mousebinds xu !! key = None ->
      forall log : list (Handler * Event),
        RunMouseBindCallbacks log_Run event evtype win mods button (xu', log)
        = Some (xu', log ++ [(A, event); (B, event)])).
Proof.
  intros key xu' thread.
  assert (binds_at xu' key = binds_at xu key ++ [Some A; Some B]) as Hchain.
  { subst xu' key. unfold binds_at at 1. rewrite attach_binds_same; simpl.
    unfold binds_at at 1. rewrite attach_binds_same; simpl.
    by rewrite <- app_assoc. }
  assert (forall (s : XUtil Handler DragFn) (hs : list Handler)
                 (log : list (Handler * Event)),
            run_callbacks log_Run event (Some <$> hs) (s, log)
            = Some (s, log ++ ((fun h => (h, event)) <$> hs))) as Hlog.
  { intros s hs. induction hs as [|h hs IH]; intros log; simpl.
    - by rewrite app_nil_r.
    - unfold log_Run at 1; simpl. rewrite IH. by rewrite <- app_assoc. }
  assert (forall st, run_callbacks Run event [Some A; Some B] st
                     = Run A event st ≫= Run B event) as Htwo.
  { intros st; simpl. destruct (Run A event st) as [st1|]; simpl; [|done].
    by destruct (Run B event st1). }
  split; [|split; [|split; [|split; [|split]]]].
  - rewrite dispatch_unfold. apply run_callbacks_foldl.
  - intros hs log Hhs.
    unfold RunMouseBindCallbacks, MouseBindCallbacks; simpl.
    rewrite copy_callbacks_id. fold key. rewrite Hhs. apply Hlog.
  - done.
  - rewrite dispatch_unfold. fold key. rewrite Hchain, run_callbacks_app.
    unfold thread. rewrite <- run_callbacks_foldl.
    destruct (run_callbacks Run event (binds_at xu key) (xu', wd)); simpl;
      [apply Htwo | done].
  - intros Hnone. rewrite dispatch_unfold. fold key. rewrite Hchain.
    unfold binds_at. rewrite Hnone; simpl.
    by destruct (Run A event (xu', wd)) as [st1|]; simpl;
      [destruct (Run B event st1)|].
  - intros Hnone log.
    unfold RunMouseBindCallbacks, MouseBindCallbacks; simpl.
    rewrite copy_callbacks_id. fold key. rewrite Hchain.
    unfold binds_at. rewrite Hnone; simpl.
    apply (Hlog xu' [A; B] log).
Qed.

(** C7, as the code has it. For a key without a chain
    [MouseBindCallbacks] returns the empty sequence and
    [RunMouseBindCallbacks] returns normally with the session and the
    world as they were, having called no handler. [MouseBindGrabs] is [0]
    for a key without a counter, and in a reachable session for a key
    without a chain. [ConnectedMouseBind(evtype, win)] is false exactly
    when no key of that event type and window has a chain, whatever
    their modifiers and buttons. A dispatch fails only through the
    callbacks it runs: when no entry of the chain is [nil] and every
    handler returns, it returns. *)
Theorem absent_key_defaults event evtype win mods button xu wd :
  let key := mkMouseBindKey evtype win mods button in
  (mousebinds xu !! key = None ->
   MouseBindCallbacks xu key = []
   /\ RunMouseBindCallbacks Run event evtype win mods button (xu, wd)
      = Some (xu, wd))
  /\ (mousegrabs xu !! key = None ->
      MouseBindGrabs evtype win mods button xu = 0)
  /\ (reachable xu -> mousebinds xu !! key = None ->
      MouseBindGrabs evtype win mods button xu = 0)
  /\ (ConnectedMouseBind evtype win xu = false
      <-> forall mods' button',
            mousebinds xu !! mkMouseBindKey evtype win mods' button' = None)
  /\ ((forall h st, is_Some (Run h event st)) ->
      None ∉ binds_at xu key ->
      is_Some (RunMouseBindCallbacks Run event evtype win mods button (xu, wd))).
Proof.
  intros key. split; [|split; [|split; [|split]]].
  - intros Hnone. split.
    + unfold MouseBindCallbacks, binds_at. by rewrite Hnone.
    + rewrite dispatch_unfold. fold key. unfold binds_at. by rewrite Hnone.
  - intros Hnone. unfold MouseBindGrabs, grabs_at. fold key. by rewrite Hnone.
  - intros Hr Hnone. by apply reachable_no_chain.
  - split.
    + intros Hc m b.
      destruct (mousebinds xu !! mkMouseBindKey evtype win m b) eqn:Hk; [|done].
      assert (ConnectedMouseBind evtype win xu = true) as Ht.
      { apply connected_true_iff. exists m, b. by rewrite Hk. }
      congruence.
    + intros Hnone.
      destruct (ConnectedMouseBind evtype win xu) eqn:Hc; [|done].
      apply connected_true_iff in Hc as (m & b & Hsome).
      rewrite (Hnone m b) in Hsome. by destruct Hsome.
  - intros Hret Hnil. rewrite dispatch_unfold. fold key.
    generalize (xu, wd). revert Hnil.
    induction (binds_at xu key) as [|cb cbs IH]; intros Hnil st; simpl.
    + by eexists.
    + destruct cb as [h|]; [|exfalso; apply Hnil; by left].
      simpl. destruct (Hret h st) as [st' Hh]. rewrite Hh.
      apply IH. intros Hin. apply Hnil. by right.
Qed.

End DispatchClaims.

Section DragClaims.
Context {Handler DragFn World : Type}.
Variable drag_call : DragFn -> MouseDragFun_type Handler DragFn World.
Implicit Types (xu : XUtil Handler DragFn).

(** C9. After [MouseDragSet(b)], [MouseDrag()] returns [b];
    [MouseDragStep()] and [MouseDragEnd()] return what they returned
    before, and both maps of the registry are as they were. *)
Theorem drag_set_changes_flag_only (b : bool) xu :
  MouseDrag (MouseDragSet b xu) = b
  /\ MouseDragStep (MouseDragSet b xu) = MouseDragStep xu
  /\ MouseDragEnd (MouseDragSet b xu) = MouseDragEnd xu
  /\ mousebinds (MouseDragSet b xu) = mousebinds xu
  /\ mousegrabs (MouseDragSet b xu) = mousegrabs xu.
Proof. done. Qed.

(** C5, as the code has it. A drag step or end function receives the
    session and four integers, [rootX], [rootY], [eventX] and [eventY]:
    one root-relative pair and one window-relative pair, with no further
    pair for an anchor. Any four integers can be handed over. The six
    values the specification lists can all be among them only when they
    take at most four different values, as at the first step of a drag,
    where the pointer is still at the anchor. *)
Theorem drag_fun_receives_four_integers (f : DragFn)
    (st : XUtil Handler DragFn * World) (args : MouseDragArgs)
    (a : SpecDragArgs) :
  call_MouseDragFun drag_call f st args
  = drag_call f st (rootX args) (rootY args) (eventX args) (eventY args)
  /\ length (param_values args) = 4%nat
  /\ (forall rx ry ex ey,
        param_values (mkMouseDragArgs rx ry ex ey) = [rx; ry; ex; ey])
  /\ ((forall v, v ∈ spec_values a -> v ∈ param_values args) ->
      (length (remove_dups (spec_values a)) <= 4)%nat).
Proof.
  split; [done|]. split; [done|]. split; [done|].
  intros Hall.
  change 4%nat with (length (param_values args)).
  apply submseteq_length, NoDup_submseteq; [apply NoDup_remove_dups|].
  intros v Hv. apply Hall. by apply elem_of_remove_dups.
Qed.

End DragClaims.

(** * Concrete runs *)

Lemma two_bound_reachable : reachable Demo.two_bound.
Proof. unfold Demo.two_bound, Demo.fresh. apply reach_attach, reach_attach, reach_new. Defined.

Lemma three_keys_reachable : reachable Demo.three_keys.
Proof.
  unfold Demo.three_keys.
  apply reach_attach, reach_attach, two_bound_reachable.
Defined.

(** A counter that is ahead of its chain, 5 for one callback, goes to 4
    when the window is detached, not to 0, and to 6 with one more
    attachment. In the scenario of two attachments the count is 2, the
    invariant holds, and detaching the window brings the count to 0. *)
Lemma grab_count_tracks_chain_length_witness :
  let key := mkMouseBindKey Demo.ButtonPress Demo.W1 0 Demo.Button1 in
  mousegrabs (DetachMouseBindWindow Demo.ButtonPress Demo.W1 miscounted) !! key
  = Some 4
  /\ mousegrabs
       (AttachMouseBindCallback Demo.ButtonPress Demo.W1 0 Demo.Button1
          Demo.cbB miscounted) !! key
     = Some 6
  /\ reachable Demo.two_bound
  /\ grab_invariant Demo.two_bound
  /\ mousegrabs Demo.two_bound !! key = Some 2
  /\ grabs_at (DetachMouseBindWindow Demo.ButtonPress Demo.W1 Demo.two_bound) key
     = 0.
Proof.
  intros key.
  destruct (grab_count_tracks_chain_length miscounted)
    as (Hattach & Hdetach & _ & _).
  destruct (Hdetach Demo.ButtonPress Demo.W1) as (Hremoved & _).
  destruct (Hremoved key [Demo.cbA]) as (_ & Hcount);
    [vm_compute; reflexivity | vm_compute; reflexivity |].
  split; [exact Hcount|].
  destruct (Hattach Demo.ButtonPress Demo.W1 0%N Demo.Button1 Demo.cbB)
    as (_ & _ & Hplus).
  split; [exact Hplus|].
  destruct (grab_count_tracks_chain_length Demo.two_bound)
    as (_ & _ & _ & Hreach).
  destruct (Hreach two_bound_reachable) as (_ & Hinv & _ & Hdet).
  split; [exact two_bound_reachable|]. split; [exact Hinv|].
  split; [vm_compute; reflexivity|].
  destruct (Hdet Demo.ButtonPress Demo.W1) as (_ & Hzero).
  apply (Hzero key [Demo.cbA; Demo.cbB]); vm_compute; reflexivity.
Defined.

(** Three attachments under a fresh key, one callback twice. *)
Lemma attach_n_gives_n_witness :
  let key := mkMouseBindKey Demo.ButtonPress Demo.W1 0 Demo.Button1 in
  let xu' := attach_all Demo.ButtonPress Demo.W1 0 Demo.Button1
               [Demo.cbA; Demo.cbA; Demo.cbB] Demo.fresh in
  MouseBindCallbacks xu' key = [Demo.cbA; Demo.cbA; Demo.cbB]
  /\ length (MouseBindCallbacks xu' key) = 3%nat
  /\ MouseBindGrabs Demo.ButtonPress Demo.W1 0 Demo.Button1 xu' = 3.
Proof.
  apply (attach_n_gives_n Demo.fresh Demo.ButtonPress Demo.W1 0 Demo.Button1
           [Demo.cbA; Demo.cbA; Demo.cbB]).
  - apply reach_new.
  - vm_compute; reflexivity.
  - vm_compute; discriminate.
Defined.

(** Detaching [(ButtonPress, W1)] from a session with two keys on [W1]
    and one on [W2]. *)
Lemma detach_window_removes_matching_witness :
  let xu' := DetachMouseBindWindow Demo.ButtonPress Demo.W1 Demo.three_keys in
  reachable Demo.three_keys
  /\ MouseBindGrabs Demo.ButtonPress Demo.W1 0 Demo.Button1 xu' = 0
  /\ MouseBindGrabs Demo.ButtonPress Demo.W1 0 Demo.Button2 xu' = 0
  /\ mousebinds xu' !! mkMouseBindKey Demo.ButtonPress Demo.W2 0 Demo.Button1
     = mousebinds Demo.three_keys
         !! mkMouseBindKey Demo.ButtonPress Demo.W2 0 Demo.Button1.
Proof.
  intros xu'.
  destruct (detach_window_removes_matching Demo.three_keys
              Demo.ButtonPress Demo.W1) as (_ & Hframe & Hzero).
  split; [exact three_keys_reachable|].
  split; [exact (Hzero three_keys_reachable 0%N Demo.Button1)|].
  split; [exact (Hzero three_keys_reachable 0%N Demo.Button2)|].
  apply Hframe. vm_compute; reflexivity.
Defined.

(** Detaching a window twice after its bindings are gone. *)
Lemma detach_window_twice_noop_witness :
  let xu := DetachMouseBindWindow Demo.ButtonPress Demo.W1 Demo.three_keys in
  let once := DetachMouseBindWindow Demo.ButtonPress Demo.W1 xu in
  let twice := DetachMouseBindWindow Demo.ButtonPress Demo.W1 once in
  once = xu /\ twice = xu
  /\ MouseBindGrabs Demo.ButtonPress Demo.W1 0 Demo.Button1 twice = 0.
Proof.
  intros xu once twice.
  destruct (detach_window_twice_noop xu Demo.ButtonPress Demo.W1)
    as (Honce & Htwice & Hzero).
  - intros k Hk. unfold xu. by rewrite detach_binds, Hk.
  - split; [exact Honce|]. split; [exact Htwice|].
    apply Hzero. apply reach_detach, three_keys_reachable.
Defined.

(** Attaching under [(ButtonPress, W2, 0, Button1)] leaves the key on
    [W1] alone. *)
Lemma attach_touches_one_key_witness :
  let k := mkMouseBindKey Demo.ButtonPress Demo.W1 0 Demo.Button1 in
  let xu' := AttachMouseBindCallback Demo.ButtonPress Demo.W2 0 Demo.Button1
               Demo.cbB Demo.two_bound in
  k <> mkMouseBindKey Demo.ButtonPress Demo.W2 0 Demo.Button1
  /\ mousebinds xu' !! k = mousebinds Demo.two_bound !! k
  /\ mousegrabs xu' !! k = mousegrabs Demo.two_bound !! k.
Proof.
  intros k xu'.
  assert (k <> mkMouseBindKey Demo.ButtonPress Demo.W2 0 Demo.Button1) as Hne
    by (vm_compute; discriminate).
  destruct (attach_touches_one_key Demo.two_bound Demo.ButtonPress Demo.W2 0
              Demo.Button1 Demo.cbB) as (Hother & _).
  destruct (Hother k Hne) as (Hb & Hg & _).
  split; [exact Hne|]. split; [exact Hb | exact Hg].
Defined.

(** Handlers 1 and 2 attached to a fresh key, then a dispatch of event 7
    with handlers that record their calls: the record shows handler 1,
    then handler 2, each once, each with 7. *)
Lemma dispatch_in_attach_order_witness :
  RunMouseBindCallbacks log_Run 7%nat Demo.ButtonPress Demo.W1 0 Demo.Button1
    (Demo.two_bound, [])
  = Some (Demo.two_bound, [(1%nat, 7%nat); (2%nat, 7%nat)]).
Proof.
  destruct (dispatch_in_attach_order Demo.Run 7%nat Demo.ButtonPress Demo.W1 0
              Demo.Button1 Demo.two_bound [] 1%nat 2%nat) as (_ & Hlog & _).
  apply (Hlog [1%nat; 2%nat] []). vm_compute; reflexivity.
Defined.

(** Lookups for button releases in a session that binds presses only,
    and a dispatch of the presses, whose handlers return. *)
Lemma absent_key_defaults_witness :
  let key := mkMouseBindKey Demo.ButtonRelease Demo.W1 0 Demo.Button1 in
  MouseBindCallbacks Demo.three_keys key = []
  /\ RunMouseBindCallbacks Demo.Run 7%nat Demo.ButtonRelease Demo.W1 0
       Demo.Button1 (Demo.three_keys, [])
     = Some (Demo.three_keys, [])
  /\ MouseBindGrabs Demo.ButtonRelease Demo.W1 0 Demo.Button1 Demo.three_keys = 0
  /\ ConnectedMouseBind Demo.ButtonRelease Demo.W1 Demo.three_keys = false
  /\ is_Some (RunMouseBindCallbacks Demo.Run 7%nat Demo.ButtonPress Demo.W1 0
                Demo.Button1 (Demo.three_keys, [])).
Proof.
  intros key.
  destruct (absent_key_defaults Demo.Run 7%nat Demo.ButtonRelease Demo.W1 0
              Demo.Button1 Demo.three_keys [])
    as (Hchain & Hcount & _ & Hconn & _).
  destruct Hchain as (Hcbs & Hrun); [vm_compute; reflexivity|].
  split; [exact Hcbs|]. split; [exact Hrun|].
  split; [apply Hcount; vm_compute; reflexivity|].
  split.
  - apply Hconn. intros mods' button'.
    destruct (mousebinds Demo.three_keys
                !! mkMouseBindKey Demo.ButtonRelease Demo.W1 mods' button')
      as [chain|] eqn:Hk; [|reflexivity].
    exfalso.
    assert (mkMouseBindKey Demo.ButtonRelease Demo.W1 mods' button'
              ∈ MouseBindKeys Demo.three_keys) as Hin
      by (apply elem_of_MouseBindKeys; eauto).
    vm_compute in Hin.
    repeat (apply elem_of_cons in Hin as [Hin|Hin]; [discriminate Hin|]).
    by apply elem_of_nil in Hin.
  - destruct (absent_key_defaults Demo.Run 7%nat Demo.ButtonPress Demo.W1 0
                Demo.Button1 Demo.three_keys []) as (_ & _ & _ & _ & Hreturns).
    apply Hreturns.
    + intros h st. unfold Demo.Run. by eexists.
    + vm_compute. intros Hin.
      repeat (apply elem_of_cons in Hin as [Hin|Hin]; [discriminate Hin|]).
      by apply elem_of_nil in Hin.
Defined.

(** C7, as stated, fails twice. In the session with two callbacks under
    [(ButtonPress, W1, 0, Button1)], the key [(ButtonPress, W1, 0,
    Button2)] has no registration, neither chain nor counter, and
    [ConnectedMouseBind(ButtonPress, W1)] is true all the same. And with
    a [nil] callback attached after them, in a session the operations
    produce, [RunMouseBindCallbacks] panics. *)
Lemma unregistered_key_connected_and_dispatch_panics :
  (mousebinds Demo.two_bound
     !! mkMouseBindKey Demo.ButtonPress Demo.W1 0 Demo.Button2 = None
   /\ mousegrabs Demo.two_bound
        !! mkMouseBindKey Demo.ButtonPress Demo.W1 0 Demo.Button2 = None
   /\ ConnectedMouseBind Demo.ButtonPress Demo.W1 Demo.two_bound = true)
  /\ (reachable with_nil
      /\ RunMouseBindCallbacks Demo.Run 7%nat Demo.ButtonPress Demo.W1 0
           Demo.Button1 (with_nil, [])
         = None).
Proof.
  split.
  - split; [vm_compute; reflexivity|]. split; vm_compute; reflexivity.
  - split; [|vm_compute; reflexivity].
    unfold with_nil. apply reach_attach, two_bound_reachable.
Qed.

(** C5, as stated, fails. For a drag that started at (100, 100) and is
    now at (140, 160), which is (40, 60) in the window, the values of the
    list of the specification are 100, 140, 160, 40 and 60: no call of a
    [MouseDragFun] hands them all over, whatever it puts in its four
    integers, so the callee cannot receive the anchor and both current
    positions. *)
Lemma drag_fun_cannot_receive_six :
  ~ (exists args : MouseDragArgs,
       forall v, v ∈ spec_values Demo.drag_from_100 -> v ∈ param_values args).
Proof.
  intros [[rx ry ex ey] Hall].
  assert (NoDup [100; 140; 160; 40; 60]) as Hnd.
  { repeat (apply NoDup_cons; split;
            [rewrite ?elem_of_cons, elem_of_nil; intros H;
             repeat destruct H as [H|H]; (discriminate H || done)|]).
    apply NoDup_nil_2. }
  assert ([100; 140; 160; 40; 60] ⊆+ [rx; ry; ex; ey]) as Hsub.
  { apply NoDup_submseteq; [done|]. intros v Hv. apply Hall.
    unfold spec_values, Demo.drag_from_100; simpl.
    repeat (apply elem_of_cons in Hv as [->|Hv];
            [rewrite !elem_of_cons; by auto 10|]).
    by apply elem_of_nil in Hv. }
  apply submseteq_length in Hsub. simpl in Hsub. lia.
Qed.

(** At the first step of a drag the pointer is at the anchor, and the six
    values are four: a call with (140, 160, 40, 60) hands them all over. *)
Lemma drag_fun_receives_four_integers_witness :
  (forall v, v ∈ spec_values drag_at_start -> v ∈ param_values args_at_start)
  /\ (length (remove_dups (spec_values drag_at_start)) <= 4)%nat
  /\ call_MouseDragFun Demo.drag_call 1%nat (Demo.fresh, []) args_at_start
     = Some (Demo.fresh, [Demo.DragCall 1 140 160 40 60]).
Proof.
  assert (forall v, v ∈ spec_values drag_at_start -> v ∈ param_values args_at_start)
    as Hall.
  { intros v Hv.
    unfold spec_values, param_values, drag_at_start, args_at_start in *;
      simpl in *.
    repeat (apply elem_of_cons in Hv as [->|Hv];
            [rewrite !elem_of_cons; by auto 10|]).
    by apply elem_of_nil in Hv. }
  split; [exact Hall|].
  destruct (drag_fun_receives_four_integers Demo.drag_call 1%nat
              (Demo.fresh, []) args_at_start drag_at_start)
    as (Hcall & _ & _ & Hfour).
  split; [exact (Hfour Hall)|].
  rewrite Hcall. reflexivity.
Defined.

(** The countings above are about sessions that the operations produce.
    On a record with a counter and no chain, which no run builds, the
    first attachment under the key gives a chain of one and a count of
    six. *)
Remark stray_count_is_not_repaired :
  let xu' := AttachMouseBindCallback Demo.ButtonPress Demo.W1 0 Demo.Button1
               Demo.cbA Demo.stray_count in
  MouseBindCallbacks xu' (mkMouseBindKey Demo.ButtonPress Demo.W1 0 Demo.Button1)
  = [Demo.cbA]
  /\ MouseBindGrabs Demo.ButtonPress Demo.W1 0 Demo.Button1 xu' = 6.
Proof. split; vm_compute; reflexivity. Qed.

(** The snapshot of the keys of the three-key session holds its three
    keys, each once. *)
Example three_keys_snapshot :
  MouseBindKeys Demo.three_keys
  ≡ₚ [ mkMouseBindKey Demo.ButtonPress Demo.W1 0 Demo.Button1;
       mkMouseBindKey Demo.ButtonPress Demo.W1 0 Demo.Button2;
       mkMouseBindKey Demo.ButtonPress Demo.W2 0 Demo.Button1 ].
Proof.
  apply NoDup_Permutation.
  - apply NoDup_MouseBindKeys.
  - repeat (apply NoDup_cons; split; [rewrite ?elem_of_cons, ?elem_of_nil; intros H;
      repeat destruct H as [H|H]; (discriminate H || done)|]).
    apply NoDup_nil_2.
  - intros k. vm_compute (MouseBindKeys Demo.three_keys).
    rewrite !elem_of_cons, !elem_of_nil. tauto.
Qed.

(** * Further properties of the registry and the drag slot *)

Section KeysSnapshot.
Context {Handler DragFn : Type}.
Implicit Types (xu : XUtil Handler DragFn) (key k : MouseBindKey).

Lemma keys_loop_from (order : list MouseBindKey) :
  forall (n : nat) (acc : list MouseBindKey),
    length acc = (n + length order)%nat ->
    foldl (fun (st : list MouseBindKey * nat) key =>
             (<[st.2 := key]> st.1, S st.2)) (acc, n) order
    = (take n acc ++ order, (n + length order)%nat).
Proof.
  induction order as [|key order IH]; intros n acc Hlen; simpl in *.
  - rewrite app_nil_r, firstn_all2 by lia. f_equal. lia.
  - rewrite IH by (rewrite length_insert; lia).
    rewrite (take_S_r _ _ key) by (apply list_lookup_insert_eq; lia).
    rewrite take_insert_ge by lia.
    rewrite <- app_assoc. f_equal. lia.
Qed.

Lemma MouseBindKeys_copy_range xu : MouseBindKeys_copy xu = MouseBindKeys xu.
Proof.
  unfold MouseBindKeys_copy.
  rewrite keys_loop_from.
  - done.
  - rewrite length_replicate. unfold MouseBindKeys.
    by rewrite length_fmap, length_map_to_list.
Qed.

(** X1. The slice [MouseBindKeys] returns has one slot per key of the
    chain map and every slot is written: it holds each key that has a
    chain exactly once, and no other key, not even the zero key that
    [make] put there. After an attachment it holds the attached key;
    after [DetachMouseBindWindow(evtype, win)] it holds no key of that
    event type and window. *)
Theorem keys_snapshot_exact xu :
  length (MouseBindKeys_copy xu) = size (mousebinds xu)
  /\ NoDup (MouseBindKeys_copy xu)
  /\ (forall k, k ∈ MouseBindKeys_copy xu <-> is_Some (mousebinds xu !! k))
  /\ (forall evtype win mods button fun_,
        mkMouseBindKey evtype win mods button
          ∈ MouseBindKeys_copy
              (AttachMouseBindCallback evtype win mods button fun_ xu))
  /\ (forall evtype win mods button,
        mkMouseBindKey evtype win mods button
          ∉ MouseBindKeys_copy (DetachMouseBindWindow evtype win xu)).
Proof.
  split; [|split; [|split; [|split]]].
  - rewrite MouseBindKeys_copy_range. unfold MouseBindKeys.
    by rewrite length_fmap, length_map_to_list.
  - rewrite MouseBindKeys_copy_range. apply NoDup_MouseBindKeys.
  - intros k. rewrite MouseBindKeys_copy_range. apply elem_of_MouseBindKeys.
  - intros evtype win mods button fun_.
    rewrite MouseBindKeys_copy_range, elem_of_MouseBindKeys.
    by rewrite attach_binds_same.
  - intros evtype win mods button.
    rewrite MouseBindKeys_copy_range, elem_of_MouseBindKeys.
    rewrite detach_binds, key_matches_mk. by intros [? ?].
Qed.

End KeysSnapshot.

Section DragSlot.
Context {Handler DragFn : Type}.
Implicit Types (xu : XUtil Handler DragFn) (ops : list (DragOp DragFn)).

(** X2. After any sequence of calls of [MouseDragSet], [MouseDragStepSet]
    and [MouseDragEndSet], each getter returns the argument of the last
    call of its own setter, or what it returned before the sequence when
    its setter was not called: a write to one slot never changes another
    (a step or end function survives [MouseDragSet(false)]), and the
    registry maps are as they were. *)
Theorem drag_slots_independent ops xu :
  MouseDrag (apply_DragOps ops xu) = last_drag_set ops (MouseDrag xu)
  /\ MouseDragStep (apply_DragOps ops xu) = last_step_set ops (MouseDragStep xu)
  /\ MouseDragEnd (apply_DragOps ops xu) = last_end_set ops (MouseDragEnd xu)
  /\ mousebinds (apply_DragOps ops xu) = mousebinds xu
  /\ mousegrabs (apply_DragOps ops xu) = mousegrabs xu.
Proof.
  unfold apply_DragOps, last_drag_set, last_step_set, last_end_set.
  revert xu. induction ops as [|op ops IH]; intros xu; simpl; [done|].
  destruct (IH (apply_DragOp xu op)) as (Hd & Hs & He & Hb & Hg).
  rewrite Hd, Hs, He, Hb, Hg. by destruct op.
Qed.

End DragSlot.

Section RegistryComposition.
Context {Handler DragFn : Type}.
Implicit Types (xu : XUtil Handler DragFn) (key k : MouseBindKey).

Lemma connected_eq_of_lookups xu1 xu2 evtype win :
  (forall mods button,
      is_Some (mousebinds xu1 !! mkMouseBindKey evtype win mods button)
      <-> is_Some (mousebinds xu2 !! mkMouseBindKey evtype win mods button)) ->
  ConnectedMouseBind evtype win xu1 = ConnectedMouseBind evtype win xu2.
Proof.
  intros Hsame. apply eq_true_iff_eq. rewrite !connected_true_iff.
  split; intros (m & b & Hsome); exists m, b; by apply Hsame.
Qed.

Lemma key_matches_mk_ne evtype win evtype' win' mods button :
  (evtype', win') <> (evtype, win) ->
  key_matches evtype win (mkMouseBindKey evtype' win' mods button) = false.
Proof.
  intros Hne. destruct (key_matches _ _ _) eqn:Hm; [|done].
  apply key_matches_spec in Hm as [He Hw]; simpl in He, Hw. by subst.
Qed.

(** X3. After [AttachMouseBindCallback(evtype, win, mods, button, fun)],
    [ConnectedMouseBind(evtype, win)] is true and the chain of the key is
    not empty and ends with [fun]; for every other pair of event type and
    window [ConnectedMouseBind] answers as before. *)
Theorem attach_connects_its_window xu evtype win mods button
    (fun_ : MouseBindCallback Handler) :
  let key := mkMouseBindKey evtype win mods button in
  let xu' := AttachMouseBindCallback evtype win mods button fun_ xu in
  ConnectedMouseBind evtype win xu' = true
  /\ last (MouseBindCallbacks xu' key) = Some fun_
  /\ (forall evtype' win',
        (evtype', win') <> (evtype, win) ->
        ConnectedMouseBind evtype' win' xu' = ConnectedMouseBind evtype' win' xu).
Proof.
  intros key xu'. subst key xu'. split; [|split].
  - apply connected_true_iff. exists mods, button.
    by rewrite attach_binds_same.
  - unfold MouseBindCallbacks. rewrite copy_callbacks_id.
    unfold binds_at at 1. rewrite attach_binds_same; simpl.
    apply last_snoc.
  - intros evtype' win' Hne. apply connected_eq_of_lookups.
    intros m b. rewrite attach_binds_other; [done|].
    intros Heq. apply Hne. by inversion Heq.
Qed.

(** X4. After [DetachMouseBindWindow(evtype, win)],
    [ConnectedMouseBind(evtype, win)] is false and [MouseBindCallbacks]
    is empty for every key of that event type and window; for every
    other pair of event type and window [ConnectedMouseBind] answers as
    before, so the press bindings of a window survive the removal of its
    release bindings. *)
Theorem detach_disconnects_its_window xu evtype win :
  let xu' := DetachMouseBindWindow evtype win xu in
  ConnectedMouseBind evtype win xu' = false
  /\ (forall mods button,
        MouseBindCallbacks xu' (mkMouseBindKey evtype win mods button) = [])
  /\ (forall evtype' win',
        (evtype', win') <> (evtype, win) ->
        ConnectedMouseBind evtype' win' xu' = ConnectedMouseBind evtype' win' xu).
Proof.
  intros xu'. subst xu'. split; [|split].
  - destruct (ConnectedMouseBind evtype win _) eqn:Hc; [|done].
    apply connected_true_iff in Hc as (m & b & Hsome).
    rewrite detach_binds, key_matches_mk in Hsome. by destruct Hsome.
  - intros mods button. unfold MouseBindCallbacks, binds_at.
    by rewrite detach_binds, key_matches_mk.
  - intros evtype' win' Hne. apply connected_eq_of_lookups.
    intros m b. by rewrite detach_binds, key_matches_mk_ne.
Qed.

Lemma detach_grabs_at evtype win xu k :
  grabs_at (DetachMouseBindWindow evtype win xu) k
  = match mousebinds xu !! k with
    | Some chain =>
        if key_matches evtype win k
        then int_wrap (grabs_at xu k - len chain) else grabs_at xu k
    | None => grabs_at xu k
    end.
Proof.
  unfold grabs_at at 1. rewrite detach_grabs.
  destruct (mousebinds xu !! k); [|done].
  by destruct (key_matches evtype win k).
Qed.

(** X5. Detaching is idempotent, and detachments commute: on every
    session, [DetachMouseBindWindow(evtype, win)] twice gives the session
    that one call gives, and two detachments for any two pairs of event
    type and window give the same session in either order. *)
Theorem detach_idempotent_and_commutes xu evtype1 win1 evtype2 win2 :
  DetachMouseBindWindow evtype1 win1 (DetachMouseBindWindow evtype1 win1 xu)
  = DetachMouseBindWindow evtype1 win1 xu
  /\ DetachMouseBindWindow evtype1 win1 (DetachMouseBindWindow evtype2 win2 xu)
     = DetachMouseBindWindow evtype2 win2 (DetachMouseBindWindow evtype1 win1 xu).
Proof.
  split.
  - apply detach_nothing. intros k Hk. by rewrite detach_binds, Hk.
  - pose proof (detach_drag evtype1 win1 xu) as (Hd1 & Hs1 & He1).
    pose proof (detach_drag evtype2 win2 xu) as (Hd2 & Hs2 & He2).
    pose proof (detach_drag evtype1 win1 (DetachMouseBindWindow evtype2 win2 xu))
      as (Hd12 & Hs12 & He12).
    pose proof (detach_drag evtype2 win2 (DetachMouseBindWindow evtype1 win1 xu))
      as (Hd21 & Hs21 & He21).
    apply XUtil_eq; try congruence.
    + apply map_eq. intros k. rewrite !detach_binds.
      by destruct (key_matches evtype1 win1 k), (key_matches evtype2 win2 k).
    + apply map_eq. intros k. rewrite !detach_grabs, !detach_binds.
      rewrite !detach_grabs_at.
      destruct (mousebinds xu !! k) as [chain|] eqn:Hk;
        destruct (key_matches evtype1 win1 k), (key_matches evtype2 win2 k);
        done.
Qed.

Lemma attach_drag evtype win mods button (fun_ : MouseBindCallback Handler) xu :
  mouseDrag (AttachMouseBindCallback evtype win mods button fun_ xu) = mouseDrag xu
  /\ mouseDragStep (AttachMouseBindCallback evtype win mods button fun_ xu)
     = mouseDragStep xu
  /\ mouseDragEnd (AttachMouseBindCallback evtype win mods button fun_ xu)
     = mouseDragEnd xu.
Proof. done. Qed.

Lemma attach_binds_at_other evtype win mods button
    (fun_ : MouseBindCallback Handler) xu k :
  k <> mkMouseBindKey evtype win mods button ->
  binds_at (AttachMouseBindCallback evtype win mods button fun_ xu) k
  = binds_at xu k.
Proof. intros Hne. unfold binds_at. by rewrite attach_binds_other. Qed.

Lemma attach_grabs_at_other evtype win mods button
    (fun_ : MouseBindCallback Handler) xu k :
  k <> mkMouseBindKey evtype win mods button ->
  grabs_at (AttachMouseBindCallback evtype win mods button fun_ xu) k
  = grabs_at xu k.
Proof. intros Hne. unfold grabs_at. by rewrite attach_grabs_other. Qed.

(** X6. Attachments under two different keys commute: either order gives
    the same session. *)
Theorem attach_distinct_keys_commute xu
    evtype1 win1 mods1 button1 (fun1 : MouseBindCallback Handler)
    evtype2 win2 mods2 button2 (fun2 : MouseBindCallback Handler) :
  mkMouseBindKey evtype1 win1 mods1 button1
    <> mkMouseBindKey evtype2 win2 mods2 button2 ->
  AttachMouseBindCallback evtype1 win1 mods1 button1 fun1
    (AttachMouseBindCallback evtype2 win2 mods2 button2 fun2 xu)
  = AttachMouseBindCallback evtype2 win2 mods2 button2 fun2
      (AttachMouseBindCallback evtype1 win1 mods1 button1 fun1 xu).
Proof.
  intros Hne.
  assert (mkMouseBindKey evtype2 win2 mods2 button2
            <> mkMouseBindKey evtype1 win1 mods1 button1) as Hne' by congruence.
  apply XUtil_eq; try done.
  - apply map_eq. intros k.
    destruct (decide (k = mkMouseBindKey evtype1 win1 mods1 button1)) as [->|Hk1];
      [|destruct (decide (k = mkMouseBindKey evtype2 win2 mods2 button2))
          as [->|Hk2]].
    + rewrite attach_binds_same, attach_binds_at_other by done.
      by rewrite attach_binds_other, attach_binds_same by done.
    + rewrite attach_binds_other by done.
      by rewrite !attach_binds_same, attach_binds_at_other by done.
    + by rewrite !attach_binds_other by done.
  - apply map_eq. intros k.
    destruct (decide (k = mkMouseBindKey evtype1 win1 mods1 button1)) as [->|Hk1];
      [|destruct (decide (k = mkMouseBindKey evtype2 win2 mods2 button2))
          as [->|Hk2]].
    + rewrite attach_grabs_same, attach_grabs_at_other by done.
      by rewrite attach_grabs_other, attach_grabs_same by done.
    + rewrite attach_grabs_other by done.
      by rewrite !attach_grabs_same, attach_grabs_at_other by done.
    + by rewrite !attach_grabs_other by done.
Qed.

End RegistryComposition.

Section ReachableShape.
Context {Handler DragFn : Type}.
Implicit Types (xu : XUtil Handler DragFn) (key k : MouseBindKey).

Lemma reachable_chain_shape xu :
  reachable xu ->
  forall k chain,
    mousebinds xu !! k = Some chain ->
    chain <> [] /\ is_Some (mousegrabs xu !! k).
Proof.
  induction 1 as [| evtype win mods button fun_ xu _ IH | evtype win xu _ IH
                  | ? xu _ IH | ? xu _ IH | ? xu _ IH]; intros k chain Hk;
    try (by apply IH).
  - simpl in Hk. by rewrite lookup_empty in Hk.
  - destruct (decide (k = mkMouseBindKey evtype win mods button)) as [->|Hne].
    + rewrite attach_binds_same in Hk. rewrite attach_grabs_same.
      split; [|by eexists]. inversion Hk. by destruct (binds_at xu _).
    + rewrite attach_binds_other in Hk by done.
      rewrite attach_grabs_other by done. by apply IH.
  - rewrite detach_binds in Hk. rewrite detach_grabs.
    destruct (key_matches evtype win k); [done|].
    rewrite Hk. by apply IH.
Qed.

(** X7. In a reachable session no stored chain is empty and every key
    with a chain has a counter. So a key whose grab count is not [0] has a
    chain, and its window is connected for its event type; and a key with
    a chain (of a length that fits an [int]) has a grab count of at least
    [1]. *)
Theorem grab_count_reflects_registration xu evtype win mods button :
  let key := mkMouseBindKey evtype win mods button in
  reachable xu ->
  (forall chain,
      mousebinds xu !! key = Some chain ->
      chain <> [] /\ MouseBindCallbacks xu key = chain
      /\ is_Some (mousegrabs xu !! key)
      /\ (len chain <= max_int -> 1 <= MouseBindGrabs evtype win mods button xu))
  /\ (MouseBindGrabs evtype win mods button xu <> 0 ->
      is_Some (mousebinds xu !! key)
      /\ ConnectedMouseBind evtype win xu = true).
Proof.
  intros key Hr. split.
  - intros chain Hk.
    destruct (reachable_chain_shape xu Hr key chain Hk) as [Hne Hcount].
    split; [done|]. split.
    { unfold MouseBindCallbacks, binds_at. by rewrite copy_callbacks_id, Hk. }
    split; [done|]. intros Hfit.
    unfold MouseBindGrabs. fold key.
    transitivity (len chain).
    + destruct chain; [done|]. unfold len; simpl length. lia.
    + apply Z.eq_le_incl. symmetry.
      transitivity (int_wrap (len (binds_at xu key)));
        [by apply reachable_track|].
      unfold binds_at. rewrite Hk; simpl. by apply int_wrap_len.
  - intros Hnz.
    assert (is_Some (mousebinds xu !! key)) as Hsome.
    { destruct (mousebinds xu !! key) eqn:Hk; [by eexists|].
      exfalso. apply Hnz. by apply reachable_no_chain. }
    split; [done|]. apply connected_true_iff. by exists mods, button.
Qed.

(** X10. A detachment absorbs an earlier attachment on its window:
    attaching under [(evtype, win, mods, button)] and then detaching
    [(evtype, win)] leaves the chains that detaching alone leaves, and in
    a reachable session the same grab count for every key. *)
Theorem detach_absorbs_attach xu evtype win mods button
    (fun_ : MouseBindCallback Handler) :
  let attached := AttachMouseBindCallback evtype win mods button fun_ xu in
  mousebinds (DetachMouseBindWindow evtype win attached)
  = mousebinds (DetachMouseBindWindow evtype win xu)
  /\ (reachable xu ->
      forall evtype' win' mods' button',
        MouseBindGrabs evtype' win' mods' button'
          (DetachMouseBindWindow evtype win attached)
        = MouseBindGrabs evtype' win' mods' button'
            (DetachMouseBindWindow evtype win xu)).
Proof.
  intros attached.
  assert (mousebinds (DetachMouseBindWindow evtype win attached)
          = mousebinds (DetachMouseBindWindow evtype win xu)) as Hbinds.
  { apply map_eq. intros k. rewrite !detach_binds.
    destruct (key_matches evtype win k) eqn:Hm; [done|].
    unfold attached. apply attach_binds_other.
    intros ->. by rewrite key_matches_mk in Hm. }
  split; [done|]. intros Hr evtype' win' mods' button'.
  unfold MouseBindGrabs.
  rewrite (reachable_track (DetachMouseBindWindow evtype win attached)).
  - rewrite (reachable_track (DetachMouseBindWindow evtype win xu))
      by by constructor.
    unfold binds_at. by rewrite Hbinds.
  - unfold attached. by repeat constructor.
Qed.

End ReachableShape.

Section DispatchMore.
Context {Handler DragFn Event World : Type}.
Variable Run : Handler -> Event -> XUtil Handler DragFn * World
               -> option (XUtil Handler DragFn * World).
Implicit Types (xu : XUtil Handler DragFn) (wd : World).

Lemma run_callbacks_keeps (P : XUtil Handler DragFn -> Prop) event :
  (forall h st st', Run h event st = Some st' -> P st.1 -> P st'.1) ->
  forall cbs st st',
    run_callbacks Run event cbs st = Some st' -> P st.1 -> P st'.1.
Proof.
  intros Hstep. induction cbs as [|cb cbs IH]; intros st st' Hrun HP; simpl in Hrun.
  - by inversion Hrun; subst.
  - destruct cb as [h|]; simpl in Hrun; [|done].
    destruct (Run h event st) as [st1|] eqn:Hh; [|done].
    apply (IH st1 st' Hrun). by apply (Hstep h st st1).
Qed.

(** X8. A dispatch keeps what every handler keeps: when each handler,
    whenever it returns, leaves a session with property [P] in a session
    with property [P], a dispatch that returns on a session with [P]
    ends in a session with [P], whatever the handlers did to the
    registry on the way. With handlers that keep sessions reachable, the
    grab counts still track the chains after the dispatch. *)
Theorem dispatch_keeps_what_handlers_keep
    (P : XUtil Handler DragFn -> Prop) event evtype win mods button
    (st st' : XUtil Handler DragFn * World) :
  (forall h st1 st2, Run h event st1 = Some st2 -> P st1.1 -> P st2.1) ->
  RunMouseBindCallbacks Run event evtype win mods button st = Some st' ->
  P st.1 ->
  P st'.1.
Proof.
  intros Hstep Hrun HP. unfold RunMouseBindCallbacks in Hrun.
  by apply (run_callbacks_keeps P event Hstep _ st st' Hrun).
Qed.

(** X9. [AttachMouseBindCallback] stores a [nil] callback like any other,
    and a chain that holds one cannot be dispatched: every
    [RunMouseBindCallbacks] of its key panics, at the [nil] entry if no
    handler before it did, and it does so until the window is detached. *)
Theorem nil_callback_panics_dispatch event evtype win mods button xu wd :
  let key := mkMouseBindKey evtype win mods button in
  (None ∈ binds_at xu key ->
   RunMouseBindCallbacks Run event evtype win mods button (xu, wd) = None)
  /\ None ∈ binds_at (AttachMouseBindCallback evtype win mods button None xu) key
  /\ (forall fun_,
        None ∈ binds_at xu key ->
        None ∈ binds_at
                 (AttachMouseBindCallback evtype win mods button fun_ xu) key)
  /\ None ∉ binds_at (DetachMouseBindWindow evtype win xu) key.
Proof.
  intros key. split; [|split; [|split]].
  - intros Hnil. apply list_elem_of_split in Hnil as (pre & post & Hchain).
    rewrite dispatch_unfold. fold key. rewrite Hchain, run_callbacks_app.
    by destruct (run_callbacks Run event pre (xu, wd)).
  - unfold binds_at at 1. subst key. rewrite attach_binds_same; simpl.
    apply elem_of_app. right. by left.
  - intros fun_ Hnil. unfold binds_at at 1. subst key.
    rewrite attach_binds_same; simpl. apply elem_of_app. by left.
  - unfold binds_at. subst key. rewrite detach_binds, key_matches_mk; simpl.
    apply not_elem_of_nil.
Qed.

End DispatchMore.

(** * Package xgraphics *)

Section FindBestIconFacts.
Import XGraphics.
Variable proportional : N -> N -> N -> N -> bool.
Variables width height : N.

Lemma find_best_loop_keeps (icons : list WmIcon) :
  forall (seen : list WmIcon) (best : option WmIcon),
    best_of proportional width height seen best ->
    exists best',
      find_best_loop proportional width height (uint32_wrap (width * height))
        (Some <$> icons) best = Some best'
      /\ best_of proportional width height (seen ++ icons) best'.
Proof.
  induction icons as [|icon icons IH]; intros seen best Hbest; simpl.
  - exists best. by rewrite app_nil_r.
  - replace (seen ++ icon :: icons) with ((seen ++ [icon]) ++ icons)
      by by rewrite <- app_assoc.
    destruct (proportional width height (Width icon) (Height icon)) eqn:Hfit;
      simpl.
    + destruct best as [b|].
      * fold (icon_area b). fold (icon_area icon).
        destruct Hbest as (Hin & Hb & Hrule).
        destruct ((uint32_wrap (width * height) <=? icon_area icon)
                  && (icon_area icon <=? icon_area b)
                  || (icon_area b <? uint32_wrap (width * height))
                     && (icon_area b <? icon_area icon))%N eqn:Hcond.
        -- apply IH. split; [rewrite elem_of_app, list_elem_of_singleton; by auto|]. split; [done|].
           intros c Hc Hcfit.
           apply orb_true_iff in Hcond.
           rewrite !andb_true_iff, !N.leb_le, !N.ltb_lt in Hcond.
           apply elem_of_app in Hc as [Hc|Hc].
           ++ destruct (Hrule c Hc Hcfit) as [Hsuff Hinsuff]. split; lia.
           ++ apply list_elem_of_singleton in Hc as ->. split; lia.
        -- apply IH. split; [rewrite elem_of_app, list_elem_of_singleton; by auto|]. split; [done|].
           intros c Hc Hcfit.
           apply orb_false_iff in Hcond as [Hc1 Hc2].
           rewrite andb_false_iff, N.leb_gt, N.leb_gt in Hc1.
           rewrite andb_false_iff, !N.ltb_ge in Hc2.
           apply elem_of_app in Hc as [Hc|Hc].
           ++ by apply Hrule.
           ++ apply list_elem_of_singleton in Hc as ->.
              destruct (Hrule b Hin Hb) as [_ _]. split; lia.
      * apply IH. split; [rewrite elem_of_app, list_elem_of_singleton; by auto|]. split; [done|].
        intros c Hc Hcfit. apply elem_of_app in Hc as [Hc|Hc].
        -- rewrite (Hbest c Hc) in Hcfit. done.
        -- apply list_elem_of_singleton in Hc as ->. split; lia.
    + apply IH. destruct best as [b|].
      * destruct Hbest as (Hin & Hb & Hrule).
        split; [rewrite elem_of_app, list_elem_of_singleton; by auto|]. split; [done|].
        intros c Hc Hcfit. apply elem_of_app in Hc as [Hc|Hc].
        -- by apply Hrule.
        -- apply list_elem_of_singleton in Hc as ->. congruence.
      * intros c Hc. apply elem_of_app in Hc as [Hc|Hc].
        -- by apply Hbest.
        -- by apply list_elem_of_singleton in Hc as ->.
Qed.

Lemma find_best_icon_spec (icons : list WmIcon) :
  exists best,
    FindBestIcon proportional width height (Some <$> icons)
    = Some (mkFindResult best ((fun b => (Width b, Height b)) <$> best))
    /\ best_of proportional width height icons best.
Proof.
  destruct (find_best_loop_keeps icons [] None) as (best & Hloop & Hbest).
  { intros c Hc. by apply elem_of_nil in Hc. }
  exists best. split; [|done].
  destruct icons as [|icon icons]; simpl in *.
  - by inversion Hloop.
  - unfold FindBestIcon. rewrite Hloop. by destruct best.
Qed.

Lemma find_best_loop_panics (icons : list (option WmIcon)) :
  forall best,
    find_best_loop proportional width height (uint32_wrap (width * height))
      icons best = None
    <-> None ∈ icons.
Proof.
  induction icons as [|[icon|] icons IH]; intros best; simpl.
  - split; [done|]. intros Hin. by apply elem_of_nil in Hin.
  - assert (None ∈ Some icon :: icons <-> None ∈ icons) as ->.
    { rewrite elem_of_cons. split; [by intros [?|?] | by right]. }
    destruct (negb _); [apply IH|].
    destruct best as [b|]; [|apply IH].
    destruct (_ || _)%bool; apply IH.
  - split; [intros _; by left | done].
Qed.

(** X11. On a slice without [nil] pointers [FindBestIcon] returns. It
    returns [nil] exactly when no icon of the slice is proportional to
    the requested dimensions (so also on the empty slice), and then
    prints nothing; otherwise it returns an icon of the slice that is
    proportional to them, and prints the width and height of that
    icon. *)
Theorem find_best_icon_returns_an_icon (icons : list WmIcon) :
  exists r,
    FindBestIcon proportional width height (Some <$> icons) = Some r
    /\ (best_icon r = None
        <-> forall c, c ∈ icons ->
              proportional width height (Width c) (Height c) = false)
    /\ (best_icon r = None -> printed r = None)
    /\ (forall b,
          best_icon r = Some b ->
          b ∈ icons
          /\ proportional width height (Width b) (Height b) = true
          /\ printed r = Some (Width b, Height b)).
Proof.
  destruct (find_best_icon_spec icons) as (best & Hres & Hbest).
  eexists. split; [exact Hres|]. simpl.
  destruct best as [b|]; simpl in *.
  - destruct Hbest as (Hin & Hb & _). split; [|split].
    + split; [done|]. intros Hnone. by rewrite (Hnone b Hin) in Hb.
    + done.
    + intros b' Hb'. by inversion Hb'; subst.
  - split; [|split]; done.
Qed.

(** X12. The icon [FindBestIcon] returns is chosen by area among the
    icons of the slice that are proportional to the request, areas and
    the preferred area [width * height] being [uint32] products. If one
    of them reaches the preferred area, the result reaches it and no
    such icon has a smaller area; if none does, no proportional icon has
    a larger area than the result. *)
Theorem find_best_icon_prefers_smallest_sufficient (icons : list WmIcon)
    (r : FindResult) (b c : WmIcon) :
  FindBestIcon proportional width height (Some <$> icons) = Some r ->
  best_icon r = Some b ->
  c ∈ icons ->
  proportional width height (Width c) (Height c) = true ->
  let parea := uint32_wrap (width * height) in
  ((parea <= icon_area c)%N ->
   (parea <= icon_area b)%N /\ (icon_area b <= icon_area c)%N)
  /\ ((icon_area b < parea)%N -> (icon_area c <= icon_area b)%N).
Proof.
  intros Hres Hb Hc Hfit parea.
  destruct (find_best_icon_spec icons) as (best & Hres' & Hbest).
  rewrite Hres in Hres'. inversion Hres'; subst r. simpl in Hb. subst best.
  destruct Hbest as (_ & _ & Hrule). by apply Hrule.
Qed.

(** X13. [FindBestIcon] panics exactly when the slice holds a [nil]
    pointer, wherever it is and whatever the other icons are: the loop
    reads the width and height of every element. *)
Theorem find_best_icon_panics_iff_nil (icons : list (option WmIcon)) :
  FindBestIcon proportional width height icons = None <-> None ∈ icons.
Proof.
  unfold FindBestIcon. destruct icons as [|icon icons].
  - split; [done|]. intros Hin. by apply elem_of_nil in Hin.
  - rewrite <- (find_best_loop_panics (icon :: icons) None).
    destruct (find_best_loop _ _ _ _ (icon :: icons) None) as [[b|]|]; done.
Qed.

End FindBestIconFacts.

Section PixelLoops.
Import XGraphics.

Lemma range_loop_app {St T : Type} (body : St -> T -> option St) (l1 l2 : list T) :
  forall s,
    range_loop body s (l1 ++ l2)
    = range_loop body s l1 ≫= fun s' => range_loop body s' l2.
Proof.
  induction l1 as [|a l1 IH]; intros s; simpl; [done|].
  destruct (body s a); simpl; [apply IH | done].
Qed.

(** A counting loop [for i := 0; i < n; i++] that keeps an invariant
    returns, and the invariant holds of what it returns. *)
Lemma count_loop_invariant {St : Type} (body : St -> Z -> option St)
    (P : Z -> St -> Prop) (n : Z) (s : St) :
  (0 <= n)%Z ->
  P 0%Z s ->
  (forall i st, (0 <= i < n)%Z -> P i st ->
     exists st', body st i = Some st' /\ P (i + 1)%Z st') ->
  exists s', range_loop body s (seqZ 0 n) = Some s' /\ P n s'.
Proof.
  intros Hn H0 Hstep.
  assert (forall k : nat, (Z.of_nat k <= n)%Z ->
            exists s', range_loop body s (seqZ 0 (Z.of_nat k)) = Some s'
                       /\ P (Z.of_nat k) s') as Hk.
  { induction k as [|k IH]; intros Hle.
    - exists s. by split.
    - destruct IH as (s1 & Hrun & HP); [lia|].
      destruct (Hstep (Z.of_nat k) s1) as (s2 & Hbody & HP2); [lia | done |].
      exists s2. rewrite seqZ_S, Z.add_0_l, range_loop_app, Hrun.
      cbn [mbind option_bind range_loop]. rewrite Hbody. split; [done|].
      by replace (Z.of_nat (S k)) with (Z.of_nat k + 1)%Z by lia. }
  destruct (Hk (Z.to_nat n)) as (s' & Hrun & HP); [lia|].
  rewrite Z2Nat.id in Hrun, HP by done. by exists s'.
Qed.

(** A loop that returns has run its body, without a panic, at every
    element. *)
Lemma range_loop_Some_elem {St T : Type} (body : St -> T -> option St) (l : list T) :
  forall s s' a,
    range_loop body s l = Some s' -> a ∈ l -> exists s1, is_Some (body s1 a).
Proof.
  induction l as [|b l IH]; intros s s' a Hrun Hin; simpl in Hrun.
  - by apply elem_of_nil in Hin.
  - destruct (body s b) as [s1|] eqn:Hb; [|done].
    apply elem_of_cons in Hin as [->|Hin].
    + exists s. by rewrite Hb.
    + by apply (IH s1 s').
Qed.

End PixelLoops.

Section IconToImage.
Import XGraphics.
Local Open Scope N_scope.

Lemma lxor_high_part (a k : N) :
  N.lxor (N.shiftl (N.shiftr a k) k) a = a mod 2 ^ k.
Proof.
  apply N.bits_inj. intros n. rewrite N.lxor_spec.
  destruct (N.lt_ge_cases n k) as [Hlt|Hge].
  - rewrite N.shiftl_spec_low by done.
    by rewrite N.mod_pow2_bits_low by done.
  - rewrite N.shiftl_spec_high' by done. rewrite N.shiftr_spec'.
    replace (n - k + k) with n by lia.
    rewrite N.mod_pow2_bits_high by done.
    by destruct (N.testbit a n).
Qed.

Lemma mid_byte (a k : N) :
  (a mod (2 ^ k * 2 ^ 8)) / 2 ^ k = (a / 2 ^ k) mod 2 ^ 8.
Proof.
  assert (2 ^ k <> 0) as Hk by (apply N.pow_nonzero; done).
  rewrite N.Div0.mod_mul_r. rewrite N.mul_comm, N.div_add by done.
  rewrite N.div_small by (apply N.mod_lt; done). done.
Qed.

Lemma argb_shifts (argb : N) :
  argb < 2 ^ 32 ->
  let alpha := N.shiftr argb 24 in
  let red := N.shiftr (N.lxor (shl32 alpha 24) argb) 16 in
  let green :=
    N.shiftr (N.lxor (add32 (shl32 alpha 24) (shl32 red 16)) argb) 8 in
  let blue :=
    N.shiftr
      (N.lxor (add32 (add32 (shl32 alpha 24) (shl32 red 16)) (shl32 green 8))
              argb) 0 in
  alpha = argb / 2 ^ 24 /\ red = (argb / 2 ^ 16) mod 2 ^ 8
  /\ green = (argb / 2 ^ 8) mod 2 ^ 8 /\ blue = argb mod 2 ^ 8.
Proof.
  intros Hlt alpha red green blue.
  assert (alpha = argb / 2 ^ 24) as Ha by apply N.shiftr_div_pow2.
  assert (alpha < 2 ^ 8) as Halt.
  { rewrite Ha. apply N.Div0.div_lt_upper_bound.
    by change (2 ^ 24 * 2 ^ 8) with (2 ^ 32). }
  assert (shl32 alpha 24 = N.shiftl (N.shiftr argb 24) 24) as Hs1.
  { unfold shl32, uint32_wrap. rewrite N.mod_small; [done|].
    rewrite N.shiftl_mul_pow2. change (2 ^ 32) with (2 ^ 8 * 2 ^ 24).
    by apply N.mul_lt_mono_pos_r. }
  assert (red = (argb / 2 ^ 16) mod 2 ^ 8) as Hr.
  { unfold red. rewrite Hs1, lxor_high_part, N.shiftr_div_pow2.
    change (2 ^ 24) with (2 ^ 16 * 2 ^ 8). apply mid_byte. }
  assert (add32 (shl32 alpha 24) (shl32 red 16)
          = N.shiftl (N.shiftr argb 16) 16) as Hs2.
  { rewrite Hs1. unfold add32, shl32, uint32_wrap.
    rewrite !N.shiftl_mul_pow2, !N.shiftr_div_pow2.
    assert (red < 2 ^ 8) by (rewrite Hr; by apply N.mod_lt).
    rewrite (N.mod_small (red * 2 ^ 16))
      by (change (2 ^ 32) with (2 ^ 16 * 2 ^ 16); nia).
    pose proof (N.Div0.div_mod (argb / 2 ^ 16) (2 ^ 8)) as Hdm.
    rewrite N.Div0.div_div in Hdm. change (2 ^ 16 * 2 ^ 8) with (2 ^ 24) in Hdm.
    rewrite <- Hr in Hdm.
    assert (argb / 2 ^ 24 * 2 ^ 24 + red * 2 ^ 16 = argb / 2 ^ 16 * 2 ^ 16)
      as -> by lia.
    apply N.mod_small. pose proof (N.Div0.mul_div_le argb (2 ^ 16)). lia. }
  assert (green = (argb / 2 ^ 8) mod 2 ^ 8) as Hg.
  { unfold green. rewrite Hs2, lxor_high_part, N.shiftr_div_pow2.
    change (2 ^ 16) with (2 ^ 8 * 2 ^ 8). apply mid_byte. }
  assert (add32 (add32 (shl32 alpha 24) (shl32 red 16)) (shl32 green 8)
          = N.shiftl (N.shiftr argb 8) 8) as Hs3.
  { rewrite Hs2. unfold add32, shl32, uint32_wrap.
    rewrite !N.shiftl_mul_pow2, !N.shiftr_div_pow2.
    assert (green < 2 ^ 8) by (rewrite Hg; by apply N.mod_lt).
    rewrite (N.mod_small (green * 2 ^ 8))
      by (change (2 ^ 32) with (2 ^ 8 * 2 ^ 24); nia).
    pose proof (N.Div0.div_mod (argb / 2 ^ 8) (2 ^ 8)) as Hdm.
    rewrite N.Div0.div_div in Hdm. change (2 ^ 8 * 2 ^ 8) with (2 ^ 16) in Hdm.
    rewrite <- Hg in Hdm.
    assert (argb / 2 ^ 16 * 2 ^ 16 + green * 2 ^ 8 = argb / 2 ^ 8 * 2 ^ 8)
      as -> by lia.
    apply N.mod_small. pose proof (N.Div0.mul_div_le argb (2 ^ 8)). lia. }
  split; [done|]. split; [done|]. split; [done|].
  unfold blue. by rewrite Hs3, lxor_high_part, N.shiftr_0_r.
Qed.

(** X14. The shifts and exclusive-ors of [EwmhIconToImage] take a 32-bit
    ARGB entry apart into its four bytes: alpha is bits 24 to 31, red
    bits 16 to 23, green bits 8 to 15 and blue bits 0 to 7. Each is below
    256, so the conversions to [uint8] lose nothing, and the four bytes
    put back in that order give the entry. *)
Theorem argb_to_RGBA_splits_bytes (argb : N) :
  argb < 2 ^ 32 ->
  let c := argb_to_RGBA argb in
  A c = argb / 2 ^ 24
  /\ R c = (argb / 2 ^ 16) mod 2 ^ 8
  /\ G c = (argb / 2 ^ 8) mod 2 ^ 8
  /\ B c = argb mod 2 ^ 8
  /\ A c * 2 ^ 24 + R c * 2 ^ 16 + G c * 2 ^ 8 + B c = argb.
Proof.
  intros Hlt c.
  destruct (argb_shifts argb Hlt) as (Ha & Hr & Hg & Hb).
  assert (A c = argb / 2 ^ 24) as HA.
  { unfold c, argb_to_RGBA; simpl. rewrite Ha. apply N.mod_small.
    apply N.Div0.div_lt_upper_bound. by change (2 ^ 24 * 2 ^ 8) with (2 ^ 32). }
  assert (R c = (argb / 2 ^ 16) mod 2 ^ 8) as HR.
  { unfold c, argb_to_RGBA; simpl. rewrite Hr. unfold uint8_wrap.
    by rewrite N.Div0.mod_mod. }
  assert (G c = (argb / 2 ^ 8) mod 2 ^ 8) as HG.
  { unfold c, argb_to_RGBA; simpl. rewrite Hg. unfold uint8_wrap.
    by rewrite N.Div0.mod_mod. }
  assert (B c = argb mod 2 ^ 8) as HB.
  { unfold c, argb_to_RGBA; simpl. rewrite Hb. unfold uint8_wrap.
    by rewrite N.Div0.mod_mod. }
  split; [done|]. split; [done|]. split; [done|]. split; [done|].
  rewrite HA, HR, HG, HB.
  pose proof (N.Div0.div_mod argb (2 ^ 8)) as H0.
  pose proof (N.Div0.div_mod (argb / 2 ^ 8) (2 ^ 8)) as H1.
  pose proof (N.Div0.div_mod (argb / 2 ^ 16) (2 ^ 8)) as H2.
  rewrite N.Div0.div_div in H1, H2.
  change (2 ^ 8 * 2 ^ 8) with (2 ^ 16) in H1.
  change (2 ^ 16 * 2 ^ 8) with (2 ^ 24) in H2.
  change (2 ^ 24) with (2 ^ 8 * (2 ^ 8 * 2 ^ 8)) at 2.
  change (2 ^ 16) with (2 ^ 8 * 2 ^ 8) at 2. lia.
Qed.

Local Close Scope N_scope.

Lemma int_wrap_fits (z : Z) :
  (- 2 ^ 63 <= z < 2 ^ 63)%Z -> int_wrap z = z.
Proof.
  intros Hz. apply int_wrap_small.
  unfold min_int, max_int, int_half, int_bits. simpl Z.sub. lia.
Qed.

Lemma read_slice_Some {T : Type} (s : list T) (i : Z) :
  (0 <= i < len s)%Z -> exists v, read_slice s i = Some v /\ s !! Z.to_nat i = Some v.
Proof.
  intros [Hlo Hhi]. unfold read_slice.
  destruct (Z.ltb_spec i 0) as [?|_]; [lia|].
  destruct (lookup_lt_is_Some_2 s (Z.to_nat i)) as [v Hv];
    [unfold len in Hhi; lia|].
  by exists v.
Qed.

Lemma read_slice_range {T : Type} (s : list T) (i : Z) :
  is_Some (read_slice s i) -> (0 <= i < len s)%Z.
Proof.
  unfold read_slice. destruct (Z.ltb_spec i 0) as [?|Hge].
  - by intros [? ?].
  - intros Hsome. apply lookup_lt_is_Some_1 in Hsome. unfold len. lia.
Qed.

(** The index [x + (y * height)] as an [int], for an icon whose height is
    below [2^31]. *)
Lemma icon_index_fits (icon : WmIcon) (x y : Z) :
  (Z.of_N (Height icon) < 2 ^ 31)%Z ->
  (0 <= x < 2 ^ 32)%Z ->
  (0 <= y < Z.of_N (Height icon))%Z ->
  int_wrap (x + int_wrap (y * Z.of_N (Height icon)))
  = (x + y * Z.of_N (Height icon))%Z.
Proof.
  intros Hh Hx Hy.
  assert (0 <= y * Z.of_N (Height icon) <= (2 ^ 31) * (2 ^ 31))%Z as Hprod by nia.
  rewrite (int_wrap_fits (y * _)) by lia.
  apply int_wrap_fits. lia.
Qed.

Lemma ewmh_icon_returns (icon : WmIcon) :
  let w := Z.of_N (Width icon) in
  let h := Z.of_N (Height icon) in
  (h < 2 ^ 31)%Z -> (w < 2 ^ 32)%Z ->
  (forall x y, (0 <= x < w)%Z -> (0 <= y < h)%Z ->
     (x + y * h < len (Data icon))%Z) ->
  exists out,
    EwmhIconToImage icon = Some out
    /\ length (img_sets out) = Z.to_nat (w * h)
    /\ length (mask_sets out) = Z.to_nat (w * h)
    /\ forall x y, (0 <= x < w)%Z -> (0 <= y < h)%Z ->
         exists argb,
           Data icon !! Z.to_nat (x + y * h) = Some argb
           /\ img_sets out !! Z.to_nat (x * h + y)
              = Some (x, y, argb_to_RGBA argb)
           /\ mask_sets out !! Z.to_nat (x * h + y)
              = Some (x, y, A (argb_to_RGBA argb)).
Proof.
  intros w h Hh Hw Hdata.
  pose (Inv := fun (i j : Z) (out : IconImages) =>
    length (img_sets out) = Z.to_nat (i * h + j)
    /\ length (mask_sets out) = Z.to_nat (i * h + j)
    /\ forall x y, (0 <= y < h)%Z ->
         ((0 <= x < i)%Z \/ (x = i /\ y < j)%Z) ->
         exists argb,
           Data icon !! Z.to_nat (x + y * h) = Some argb
           /\ img_sets out !! Z.to_nat (x * h + y)
              = Some (x, y, argb_to_RGBA argb)
           /\ mask_sets out !! Z.to_nat (x * h + y)
              = Some (x, y, A (argb_to_RGBA argb))).
  assert (0 <= w)%Z as Hw0 by (unfold w; lia).
  assert (0 <= h)%Z as Hh0 by (unfold h; lia).
  destruct (count_loop_invariant
              (fun out x => range_loop (icon_pixel_step icon x) out (seqZ 0 h))
              (fun i out => Inv i 0%Z out) w (mkIconImages [] []) Hw0)
    as (out & Hrun & Hlen1 & Hlen2 & Hpix).
  - split; [done|]. split; [done|]. intros x y Hy [Hx|[_ Hlt]]; lia.
  - intros i st Hi HInv.
    destruct (count_loop_invariant (icon_pixel_step icon i)
                (fun j out => Inv i j out) h st Hh0 HInv)
      as (st' & Hinner & Hl1 & Hl2 & Hp).
    + intros j st1 Hj (Hl1 & Hl2 & Hp).
      assert (0 <= i * h)%Z as Hih by nia.
      destruct (read_slice_Some (Data icon) (i + j * h)) as (argb & Hread & Hget).
      { split; [nia | by apply Hdata]. }
      unfold icon_pixel_step.
      rewrite icon_index_fits by (unfold h, w in *; lia).
      fold h. rewrite Hread.
      eexists. split; [done|]. unfold Inv; simpl. split; [|split].
      * rewrite length_app, Hl1; simpl. lia.
      * rewrite length_app, Hl2; simpl. lia.
      * intros x y Hy Hxy.
        destruct (decide (x = i /\ y = j)) as [[-> ->]|Hne].
        -- exists argb. split; [done|].
           rewrite !lookup_app_r by lia.
           rewrite Hl1, Hl2, Nat.sub_diag. done.
        -- destruct (Hp x y Hy) as (argb' & Hd & Hi' & Hm'); [lia|].
           exists argb'. split; [done|].
           by rewrite !lookup_app_l by (eapply lookup_lt_Some; eauto).
    + exists st'. split; [done|]. split; [|split].
      * rewrite Hl1. f_equal. lia.
      * rewrite Hl2. f_equal. lia.
      * intros x y Hy Hxy. apply Hp; [done|]. lia.
  - exists out. split; [done|].
    rewrite Z.add_0_r in Hlen1, Hlen2. split; [done|]. split; [done|].
    intros x y Hx Hy. apply Hpix; [done|]. by left.
Qed.

Lemma ewmh_icon_panics (icon : WmIcon) :
  let w := Z.of_N (Width icon) in
  let h := Z.of_N (Height icon) in
  (h < 2 ^ 31)%Z -> (w < 2 ^ 32)%Z ->
  (0 < w)%Z -> (0 < h)%Z ->
  (len (Data icon) <= (w - 1) + (h - 1) * h)%Z ->
  EwmhIconToImage icon = None.
Proof.
  intros w h Hh Hw Hw0 Hh0 Hshort.
  destruct (EwmhIconToImage icon) as [out|] eqn:Hrun; [|done]. exfalso.
  unfold EwmhIconToImage in Hrun. fold w h in Hrun.
  destruct (range_loop_Some_elem _ _ _ _ (w - 1)%Z Hrun) as (s1 & [s2 Hinner]).
  { apply elem_of_seqZ. lia. }
  destruct (range_loop_Some_elem _ _ _ _ (h - 1)%Z Hinner) as (s3 & Hstep).
  { apply elem_of_seqZ. lia. }
  unfold icon_pixel_step in Hstep.
  rewrite icon_index_fits in Hstep by (unfold h, w in *; lia).
  fold h in Hstep.
  destruct (read_slice (Data icon) (w - 1 + (h - 1) * h)) eqn:Hread.
  - assert (is_Some (read_slice (Data icon) (w - 1 + (h - 1) * h))) as Hsome
      by by rewrite Hread.
    apply read_slice_range in Hsome. lia.
  - by destruct Hstep.
Qed.

(** X15. [EwmhIconToImage] on an icon of width [w] and height [h] whose
    data reaches the last entry it reads, number [(w-1) + (h-1)*h]:
    it returns, having called [SetRGBA] and [Set] once for every pixel
    [(x, y)], columns first, with the colour and the alpha of the entry
    [Data[x + y*h]]. That entry is the one of row [y] and column [x] when
    the icon is square. *)
Theorem ewmh_icon_to_image_pixels (icon : WmIcon) :
  let w := Z.of_N (Width icon) in
  let h := Z.of_N (Height icon) in
  (h < 2 ^ 31)%Z -> (w < 2 ^ 32)%Z ->
  ((0 < w)%Z -> (0 < h)%Z -> ((w - 1) + (h - 1) * h < len (Data icon))%Z) ->
  exists out,
    EwmhIconToImage icon = Some out
    /\ length (img_sets out) = Z.to_nat (w * h)
    /\ length (mask_sets out) = Z.to_nat (w * h)
    /\ forall x y, (0 <= x < w)%Z -> (0 <= y < h)%Z ->
         exists argb,
           Data icon !! Z.to_nat (x + y * h) = Some argb
           /\ img_sets out !! Z.to_nat (x * h + y)
              = Some (x, y, argb_to_RGBA argb)
           /\ mask_sets out !! Z.to_nat (x * h + y)
              = Some (x, y, A (argb_to_RGBA argb)).
Proof.
  intros w h Hh Hw Hdata. apply ewmh_icon_returns; [done | done |].
  intros x y Hx Hy.
  assert ((w - 1) + (h - 1) * h < len (Data icon))%Z by (apply Hdata; lia).
  nia.
Qed.

(** X16. [EwmhIconToImage] panics exactly when the icon has pixels and
    its data stops at or before entry [(w-1) + (h-1)*h]. For an icon
    whose data has the [w*h] entries of its size, that is exactly when
    it is taller than wide: the index [x + y*height] of the last column
    then runs past the end. A wider or square icon never panics. *)
Theorem ewmh_icon_to_image_panics_iff (icon : WmIcon) :
  let w := Z.of_N (Width icon) in
  let h := Z.of_N (Height icon) in
  (h < 2 ^ 31)%Z -> (w < 2 ^ 32)%Z ->
  (EwmhIconToImage icon = None
   <-> (0 < w)%Z /\ (0 < h)%Z /\ (len (Data icon) <= (w - 1) + (h - 1) * h)%Z)
  /\ (len (Data icon) = (w * h)%Z ->
      (EwmhIconToImage icon = None <-> (0 < w < h)%Z)).
Proof.
  intros w h Hh Hw.
  assert (EwmhIconToImage icon = None
          <-> (0 < w)%Z /\ (0 < h)%Z
              /\ (len (Data icon) <= (w - 1) + (h - 1) * h)%Z) as Hiff.
  { split.
    - intros Hnone.
      destruct (decide ((0 < w)%Z /\ (0 < h)%Z
                        /\ (len (Data icon) <= (w - 1) + (h - 1) * h)%Z))
        as [?|Hnot]; [done|].
      destruct (ewmh_icon_returns icon Hh Hw) as (out & Hrun & _).
      + intros x y Hx Hy. fold w h in Hx, Hy |- *. nia.
      + by rewrite Hrun in Hnone.
    - intros (Hw0 & Hh0 & Hshort). by apply ewmh_icon_panics. }
  split; [done|]. intros Hlen. rewrite Hiff, Hlen. split.
  - intros (Hw0 & Hh0 & Hshort). nia.
  - intros [Hw0 Hwh]. split; [done|]. split; [lia|]. nia.
Qed.

End IconToImage.

Section PixmapBuffer.
Import XGraphics.

Lemma write_slice_in_range {T : Type} (s : list T) (i : Z) (v : T) :
  (0 <= i < len s)%Z -> write_slice s i v = Some (<[Z.to_nat i := v]> s).
Proof.
  intros [Hlo Hhi]. unfold write_slice.
  destruct (Z.leb_spec 0 i); [|lia]. destruct (Z.ltb_spec i (len s)); [done|lia].
Qed.

Lemma len_insert {T : Type} (s : list T) (i : nat) (v : T) :
  len (<[i := v]> s) = len s.
Proof. unfold len. by rewrite length_insert. Qed.

(** Two pixels of one image do not share an index [x + y*width]. *)
Lemma pixel_index_inj (w x y x' y' : Z) :
  (0 <= x < w)%Z -> (0 <= x' < w)%Z ->
  (x + y * w = x' + y' * w)%Z -> x = x' /\ y = y'.
Proof. intros Hx Hx' Heq. assert (y = y') by nia. subst. lia. Qed.

Lemma pixmap_step_spec (img : Image) (w h x y : Z) (st : PixmapData) :
  (4 * w * h < 2 ^ 63)%Z ->
  len (imgData st) = (4 * w * h)%Z ->
  (0 <= x < w)%Z -> (0 <= y < h)%Z ->
  let idx := (4 * (x + y * w))%Z in
  exists st',
    pixmap_step img w h x st y = Some st'
    /\ len (imgData st') = len (imgData st)
    /\ printlns st' = printlns st ++ [(x, y, w, h, idx)]
    /\ imgData st' !! Z.to_nat idx
       = Some (uint8_wrap (N.shiftr (At_RGBA img x y).1.2 8))
    /\ imgData st' !! Z.to_nat (idx + 1)
       = Some (uint8_wrap (N.shiftr (At_RGBA img x y).1.1.2 8))
    /\ imgData st' !! Z.to_nat (idx + 2)
       = Some (uint8_wrap (N.shiftr (At_RGBA img x y).1.1.1 8))
    /\ imgData st' !! Z.to_nat (idx + 3)
       = Some (uint8_wrap (N.shiftr (At_RGBA img x y).2 8))
    /\ forall p : nat,
         (p < Z.to_nat idx \/ Z.to_nat idx + 3 < p)%nat ->
         imgData st' !! p = imgData st !! p.
Proof.
  intros Hfit Hlen Hx Hy idx.
  assert (0 <= y * w)%Z as Hyw by nia.
  assert (x + y * w < w * h)%Z as Hpix by nia.
  assert (0 <= idx /\ idx + 3 < 4 * w * h)%Z as [Hidx0 Hidx3] by (unfold idx; lia).
  unfold pixmap_step.
  destruct (At_RGBA img x y) as [[[r g] b] a]; simpl.
  rewrite (int_wrap_fits (y * w)) by lia.
  rewrite (int_wrap_fits (x + y * w)) by lia.
  fold idx. rewrite (int_wrap_fits idx) by lia.
  rewrite !int_wrap_fits by lia.
  rewrite write_slice_in_range by lia.
  rewrite write_slice_in_range by (rewrite len_insert; lia).
  rewrite write_slice_in_range by (rewrite !len_insert; lia).
  rewrite write_slice_in_range by (rewrite !len_insert; lia).
  eexists. split; [done|]. simpl.
  assert (Z.to_nat idx + 3 < length (imgData st))%nat as Hnat
    by (unfold len in Hlen; lia).
  split; [by rewrite !len_insert|]. split; [done|].
  replace (Z.to_nat (idx + 0)) with (Z.to_nat idx) by lia.
  replace (Z.to_nat (idx + 1)) with (Z.to_nat idx + 1)%nat by lia.
  replace (Z.to_nat (idx + 2)) with (Z.to_nat idx + 2)%nat by lia.
  replace (Z.to_nat (idx + 3)) with (Z.to_nat idx + 3)%nat by lia.
  split; [|split; [|split; [|split]]].
  - rewrite !list_lookup_insert_ne by lia.
    by rewrite list_lookup_insert_eq by lia.
  - rewrite !list_lookup_insert_ne by lia.
    by rewrite list_lookup_insert_eq by (rewrite !length_insert; lia).
  - rewrite !list_lookup_insert_ne by lia.
    by rewrite list_lookup_insert_eq by (rewrite !length_insert; lia).
  - by rewrite list_lookup_insert_eq by (rewrite !length_insert; lia).
  - intros p Hp. by rewrite !list_lookup_insert_ne by lia.
Qed.

(** X17. For an image of width [w] and height [h] (the differences of its
    bounds) with [4*w*h] within the range of an [int], the loops of
    [CreatePixmap] do not panic and fill a buffer of [4*w*h] bytes, row
    after row: the four bytes from position [4*(x + y*w)] on are the
    high bytes of the blue, green, red and alpha values that
    [img.At(x, y).RGBA()] returns, in that order. [At] is asked for
    [(x, y)] counted from zero, whatever the corner of the bounds is.
    One line is printed per pixel. *)
Theorem create_pixmap_buffer_is_bgra (img : Image) :
  let w := (MaxX img - MinX img)%Z in
  let h := (MaxY img - MinY img)%Z in
  (0 <= w < 2 ^ 63)%Z -> (0 <= h < 2 ^ 63)%Z -> (4 * w * h < 2 ^ 63)%Z ->
  exists d,
    CreatePixmap_imgData img = Some d
    /\ len (imgData d) = (4 * w * h)%Z
    /\ length (printlns d) = Z.to_nat (w * h)
    /\ forall x y, (0 <= x < w)%Z -> (0 <= y < h)%Z ->
         exists r g b a,
           At_RGBA img x y = (r, g, b, a)
           /\ imgData d !! Z.to_nat (4 * (x + y * w))
              = Some (uint8_wrap (N.shiftr b 8))
           /\ imgData d !! Z.to_nat (4 * (x + y * w) + 1)
              = Some (uint8_wrap (N.shiftr g 8))
           /\ imgData d !! Z.to_nat (4 * (x + y * w) + 2)
              = Some (uint8_wrap (N.shiftr r 8))
           /\ imgData d !! Z.to_nat (4 * (x + y * w) + 3)
              = Some (uint8_wrap (N.shiftr a 8)).
Proof.
  intros w h Hw Hh Hfit.
  pose (Pix := fun (st : PixmapData) (x y : Z) =>
    exists r g b a,
      At_RGBA img x y = (r, g, b, a)
      /\ imgData st !! Z.to_nat (4 * (x + y * w)) = Some (uint8_wrap (N.shiftr b 8))
      /\ imgData st !! Z.to_nat (4 * (x + y * w) + 1)
         = Some (uint8_wrap (N.shiftr g 8))
      /\ imgData st !! Z.to_nat (4 * (x + y * w) + 2)
         = Some (uint8_wrap (N.shiftr r 8))
      /\ imgData st !! Z.to_nat (4 * (x + y * w) + 3)
         = Some (uint8_wrap (N.shiftr a 8))).
  pose (Inv := fun (i j : Z) (st : PixmapData) =>
    len (imgData st) = (4 * w * h)%Z
    /\ length (printlns st) = Z.to_nat (i * h + j)
    /\ forall x y, (0 <= y < h)%Z ->
         ((0 <= x < i)%Z \/ (x = i /\ y < j)%Z) -> Pix st x y).
  assert (0 <= w * h <= 4 * w * h)%Z as Hwh by nia.
  unfold CreatePixmap_imgData, getDim. fold w h.
  rewrite (int_wrap_fits w), (int_wrap_fits h) by lia.
  rewrite (int_wrap_fits (w * h)) by lia.
  rewrite (int_wrap_fits (w * h * 4)) by lia.
  destruct (Z.ltb_spec (w * h * 4) 0) as [?|_]; [lia|].
  destruct (count_loop_invariant
              (fun st x => range_loop (pixmap_step img w h x) st (seqZ 0 h))
              (fun i st => Inv i 0%Z st) w
              (mkPixmapData (replicate (Z.to_nat (w * h * 4)) 0%N) []))
    as (d & Hrun & Hlen & Hprint & Hpix).
  - lia.
  - split; [|split].
    + unfold len; simpl. rewrite length_replicate. lia.
    + done.
    + intros x y Hy [Hx|[_ Hlt]]; lia.
  - intros i st Hi HInv.
    destruct (count_loop_invariant (pixmap_step img w h i)
                (fun j st => Inv i j st) h st) as (st' & Hinner & Hl & Hp & Hpx).
    + lia.
    + done.
    + intros j st1 Hj (Hl & Hp & Hpx).
      destruct (pixmap_step_spec img w h i j st1 Hfit Hl Hi Hj)
        as (st2 & Hstep & Hlen2 & Hpr2 & Hb & Hg & Hr & Ha & Hother).
      exists st2. split; [done|]. split; [|split].
      * by rewrite Hlen2.
      * rewrite Hpr2, length_app, Hp; simpl.
        assert (0 <= i * h)%Z by nia. lia.
      * intros x y Hy Hxy.
        destruct (decide (x = i /\ y = j)) as [[-> ->]|Hne].
        -- destruct (At_RGBA img i j) as [[[r g] b] a] eqn:Hat.
           exists r, g, b, a. simpl in Hb, Hg, Hr, Ha. by rewrite Hat.
        -- destruct (Hpx x y Hy) as (r & g & b & a & Hat & H0 & H1 & H2 & H3);
             [lia|].
           assert (0 <= x < w)%Z as Hxw by lia.
           assert (x + y * w <> i + j * w)%Z as Hidx.
           { intros Heq. apply Hne. by apply (pixel_index_inj w). }
           assert (0 <= x + y * w)%Z by nia.
           assert (0 <= i + j * w)%Z by nia.
           exists r, g, b, a. split; [done|].
           rewrite !Hother by lia. done.
    + exists st'. split; [done|]. split; [done|]. split.
      * rewrite Hp. f_equal. lia.
      * intros x y Hy Hxy. apply Hpx; [done|]. lia.
  - exists d. split; [done|]. split; [done|]. split.
    + rewrite Hprint. f_equal. lia.
    + intros x y Hx Hy. apply Hpix; [done|]. by left.
Qed.

End PixmapBuffer.

(** * Concrete runs of the further properties *)

(** Attaching on [W2] connects [W2] and leaves the answer for releases on
    [W1] as it was. *)
Lemma attach_connects_its_window_witness :
  let xu' := AttachMouseBindCallback Demo.ButtonPress Demo.W2 0 Demo.Button1
               Demo.cbA Demo.two_bound in
  ConnectedMouseBind Demo.ButtonPress Demo.W2 xu' = true
  /\ ConnectedMouseBind Demo.ButtonRelease Demo.W1 xu'
     = ConnectedMouseBind Demo.ButtonRelease Demo.W1 Demo.two_bound.
Proof.
  intros xu'.
  destruct (attach_connects_its_window Demo.two_bound Demo.ButtonPress Demo.W2
              0 Demo.Button1 Demo.cbA) as (Hconn & _ & Hother).
  split; [exact Hconn|]. apply Hother. vm_compute; discriminate.
Defined.

(** Detaching the presses of [W1] keeps the presses of [W2] connected. *)
Lemma detach_disconnects_its_window_witness :
  let xu' := DetachMouseBindWindow Demo.ButtonPress Demo.W1 Demo.three_keys in
  ConnectedMouseBind Demo.ButtonPress Demo.W1 xu' = false
  /\ ConnectedMouseBind Demo.ButtonPress Demo.W2 xu'
     = ConnectedMouseBind Demo.ButtonPress Demo.W2 Demo.three_keys.
Proof.
  intros xu'.
  destruct (detach_disconnects_its_window Demo.three_keys Demo.ButtonPress
              Demo.W1) as (Hoff & _ & Hother).
  split; [exact Hoff|]. apply Hother. vm_compute; discriminate.
Defined.

(** Two attachments under different buttons of [W1], in both orders. *)
Lemma attach_distinct_keys_commute_witness :
  AttachMouseBindCallback Demo.ButtonPress Demo.W1 0 Demo.Button1 Demo.cbA
    (AttachMouseBindCallback Demo.ButtonPress Demo.W1 0 Demo.Button2 Demo.cbB
       Demo.fresh)
  = AttachMouseBindCallback Demo.ButtonPress Demo.W1 0 Demo.Button2 Demo.cbB
      (AttachMouseBindCallback Demo.ButtonPress Demo.W1 0 Demo.Button1 Demo.cbA
         Demo.fresh).
Proof.
  apply (attach_distinct_keys_commute Demo.fresh). vm_compute; discriminate.
Defined.

(** The key with two callbacks has a count that is not [0], and its
    window is connected. *)
Lemma grab_count_reflects_registration_witness :
  MouseBindGrabs Demo.ButtonPress Demo.W1 0 Demo.Button1 Demo.two_bound <> 0
  /\ ConnectedMouseBind Demo.ButtonPress Demo.W1 Demo.two_bound = true.
Proof.
  assert (MouseBindGrabs Demo.ButtonPress Demo.W1 0 Demo.Button1 Demo.two_bound
          <> 0) as Hnz by (vm_compute; discriminate).
  destruct (grab_count_reflects_registration Demo.two_bound Demo.ButtonPress
              Demo.W1 0 Demo.Button1 two_bound_reachable) as (_ & Hconn).
  split; [exact Hnz|]. exact (proj2 (Hconn Hnz)).
Defined.

(** The logging handlers leave the session alone, so a dispatch over
    them ends in a reachable session. *)
Lemma dispatch_keeps_what_handlers_keep_witness :
  RunMouseBindCallbacks Demo.Run 7%nat Demo.ButtonPress Demo.W1 0 Demo.Button1
    (Demo.two_bound, [])
  = Some (Demo.two_bound, [Demo.RunCall 1 7; Demo.RunCall 2 7])
  /\ reachable Demo.two_bound.
Proof.
  assert (RunMouseBindCallbacks Demo.Run 7%nat Demo.ButtonPress Demo.W1 0
            Demo.Button1 (Demo.two_bound, [])
          = Some (Demo.two_bound, [Demo.RunCall 1 7; Demo.RunCall 2 7])) as Hrun
    by (vm_compute; reflexivity).
  split; [exact Hrun|].
  apply (dispatch_keeps_what_handlers_keep Demo.Run reachable 7%nat
           Demo.ButtonPress Demo.W1 0 Demo.Button1 (Demo.two_bound, [])
           (Demo.two_bound, [Demo.RunCall 1 7; Demo.RunCall 2 7])).
  - intros h st1 st2 Hh Hr. unfold Demo.Run in Hh. by inversion Hh; subst.
  - exact Hrun.
  - exact two_bound_reachable.
Defined.

(** A [nil] callback attached after two handlers: the dispatch panics. *)
Lemma nil_callback_panics_dispatch_witness :
  let xu := AttachMouseBindCallback Demo.ButtonPress Demo.W1 0 Demo.Button1 None
              Demo.two_bound in
  RunMouseBindCallbacks Demo.Run 7%nat Demo.ButtonPress Demo.W1 0 Demo.Button1
    (xu, [])
  = None.
Proof.
  intros xu.
  destruct (nil_callback_panics_dispatch Demo.Run 7%nat Demo.ButtonPress Demo.W1
              0 Demo.Button1 xu []) as (Hpanic & _).
  apply Hpanic.
  destruct (nil_callback_panics_dispatch Demo.Run 7%nat Demo.ButtonPress Demo.W1
              0 Demo.Button1 Demo.two_bound []) as (_ & Hnil & _).
  exact Hnil.
Defined.

(** Attaching on [W1] and detaching [W1] leaves the counts that detaching
    alone leaves. *)
Lemma detach_absorbs_attach_witness :
  MouseBindGrabs Demo.ButtonPress Demo.W1 0 Demo.Button2
    (DetachMouseBindWindow Demo.ButtonPress Demo.W1
       (AttachMouseBindCallback Demo.ButtonPress Demo.W1 0 Demo.Button2 Demo.cbA
          Demo.two_bound))
  = MouseBindGrabs Demo.ButtonPress Demo.W1 0 Demo.Button2
      (DetachMouseBindWindow Demo.ButtonPress Demo.W1 Demo.two_bound).
Proof.
  destruct (detach_absorbs_attach Demo.two_bound Demo.ButtonPress Demo.W1 0
              Demo.Button2 Demo.cbA) as (_ & Hcount).
  apply Hcount. exact two_bound_reachable.
Defined.

(** For a request of 24 by 24 the square icons of 16, 48 and 32 are the
    candidates; the one of 32 is returned, the smallest that reaches
    24 * 24, and it is not larger than the one of 48. *)
Lemma find_best_icon_prefers_smallest_sufficient_witness :
  XGraphics.FindBestIcon Scenes.exact_proportional 24 24 (Some <$> Scenes.icons)
  = Some (XGraphics.mkFindResult (Some Scenes.icon32) (Some (32, 32)%N))
  /\ (XGraphics.uint32_wrap (24 * 24) <= XGraphics.icon_area Scenes.icon32)%N
  /\ (XGraphics.icon_area Scenes.icon32 <= XGraphics.icon_area Scenes.icon48)%N.
Proof.
  assert (XGraphics.FindBestIcon Scenes.exact_proportional 24 24
            (Some <$> Scenes.icons)
          = Some (XGraphics.mkFindResult (Some Scenes.icon32) (Some (32, 32)%N)))
    as Hres by (vm_compute; reflexivity).
  split; [exact Hres|].
  destruct (find_best_icon_prefers_smallest_sufficient
              Scenes.exact_proportional 24 24 Scenes.icons _
              Scenes.icon32 Scenes.icon48 Hres) as (Hsuff & _).
  - reflexivity.
  - unfold Scenes.icons. right. left.
  - vm_compute; reflexivity.
  - apply Hsuff. vm_compute; discriminate.
Defined.

(** Half-transparent green, [0x8000FF00]. *)
Lemma argb_to_RGBA_splits_bytes_witness :
  XGraphics.argb_to_RGBA Scenes.green50 = XGraphics.mkRGBA 0 0xFF 0 0x80
  /\ XGraphics.A (XGraphics.argb_to_RGBA Scenes.green50)
     = (Scenes.green50 / 2 ^ 24)%N.
Proof.
  split; [vm_compute; reflexivity|].
  destruct (argb_to_RGBA_splits_bytes Scenes.green50) as (Ha & _).
  - vm_compute; reflexivity.
  - exact Ha.
Defined.

(** The row of two pixels is converted, one call per pixel. *)
Lemma ewmh_icon_to_image_pixels_witness :
  exists out,
    XGraphics.EwmhIconToImage Scenes.wide = Some out
    /\ length (XGraphics.img_sets out) = 2%nat.
Proof.
  destruct (ewmh_icon_to_image_pixels Scenes.wide) as (out & Hrun & Hlen & _).
  - vm_compute; reflexivity.
  - vm_compute; reflexivity.
  - intros _ _. vm_compute; reflexivity.
  - exists out. split; [exact Hrun | exact Hlen].
Defined.

(** The column of two pixels, with its two entries, panics. *)
Lemma ewmh_icon_to_image_panics_iff_witness :
  XGraphics.EwmhIconToImage Scenes.tall = None.
Proof.
  destruct (ewmh_icon_to_image_panics_iff Scenes.tall) as (_ & Htall).
  - vm_compute; reflexivity.
  - vm_compute; reflexivity.
  - apply Htall; [vm_compute; reflexivity|].
    split; vm_compute; reflexivity.
Defined.

(** The buffer of the two-pixel image: blue, green, red, alpha of the red
    pixel, then of the green one. *)
Lemma create_pixmap_buffer_is_bgra_witness :
  exists d,
    XGraphics.CreatePixmap_imgData Scenes.two_pixels = Some d
    /\ XGraphics.imgData d = [0; 0; 0xFF; 0xFF; 0; 0x80; 0; 0x80]%N
    /\ len (XGraphics.imgData d) = 8.
Proof.
  destruct (create_pixmap_buffer_is_bgra Scenes.two_pixels)
    as (d & Hrun & Hlen & _).
  - split; vm_compute; [discriminate | reflexivity].
  - split; vm_compute; [discriminate | reflexivity].
  - vm_compute; reflexivity.
  - exists d. split; [exact Hrun|]. split; [|exact Hlen].
    vm_compute in Hrun. by inversion Hrun.
Defined.
